(** * simple-trello: the task store of [src/App.js]

    A shallow embedding of the zustand store [useTaskTracker] (the list of
    tasks with [create], [update] and [remove], persisted as JSON in
    [localStorage]) and of the pure parts of the [App] component (the column
    filter, the drop handler and the statistics), followed by the properties
    proved about them. *)

From Stdlib Require Import ZArith NArith Ascii String Floats.SpecFloat.
From stdpp Require Import base decidable option list gmap.

Set Warnings "-register-all".
Local Open Scope N_scope.

(** ** JavaScript strings

    A JavaScript string is a sequence of UTF-16 code units; a code unit is a
    number below 2^16.  [===] on strings compares the code units. *)

Definition jsstring := list N.

(** The source file is UTF-8 text; a string literal of the source denotes the
    UTF-16 code units of its characters.  [utf16_of_bytes] decodes the one-,
    two- and three-byte forms (the Basic Multilingual Plane, which holds every
    literal of [App.js]). *)
Fixpoint utf16_of_bytes (bs : list N) : jsstring :=
  match bs with
  | [] => []
  | b :: r =>
      if b <? 0x80 then b :: utf16_of_bytes r
      else
        match r with
        | [] => []
        | c :: r' =>
            if b <? 0xE0 then ((b - 0xC0) * 64 + (c - 0x80)) :: utf16_of_bytes r'
            else
              match r' with
              | [] => []
              | d :: r'' =>
                  ((b - 0xE0) * 4096 + (c - 0x80) * 64 + (d - 0x80))
                    :: utf16_of_bytes r''
              end
        end
  end.

Definition lit (s : string) : jsstring :=
  utf16_of_bytes (map N_of_ascii (list_ascii_of_string s)).

(** ** JSON

    What [createJSONStorage(() => localStorage)] does with a value:
    [JSON.stringify] on the way in, [JSON.parse] on the way out. *)

Inductive json : Type :=
  | JNull
  | JBool (b : bool)
  | JNumber (n : Z)
  | JString (s : jsstring)
  | JArray (elements : list json)
  | JObject (members : list (jsstring * json)).

Module JSON.

(** One lower-case hexadecimal digit, as [UnicodeEscape] writes it. *)
Definition hex_digit (d : N) : N := if d <? 10 then 0x30 + d else 0x57 + d.

(** [UnicodeEscape]: a backslash, [u] and the four hexadecimal digits. *)
Definition unicode_escape (c : N) : jsstring :=
  [0x5C; 0x75; hex_digit (c / 4096 mod 16); hex_digit (c / 256 mod 16);
   hex_digit (c / 16 mod 16); hex_digit (c mod 16)].

Definition is_lead (c : N) : bool := (0xD800 <=? c) && (c <=? 0xDBFF).
Definition is_trail (c : N) : bool := (0xDC00 <=? c) && (c <=? 0xDFFF).

(** The escape of a code unit that is not part of a surrogate pair. *)
Definition escape (c : N) : jsstring :=
  if c =? 0x08 then [0x5C; 0x62]
  else if c =? 0x09 then [0x5C; 0x74]
  else if c =? 0x0A then [0x5C; 0x6E]
  else if c =? 0x0C then [0x5C; 0x66]
  else if c =? 0x0D then [0x5C; 0x72]
  else if c =? 0x22 then [0x5C; 0x22]
  else if c =? 0x5C then [0x5C; 0x5C]
  else if (c <? 0x20) || is_lead c || is_trail c then unicode_escape c
  else [c].

(** [QuoteJSONString] without the two quotes: a leading surrogate followed
    by a trailing one is one code point and is copied; every other code
    unit goes through [escape]. *)
Fixpoint quote_body (s : jsstring) : jsstring :=
  match s with
  | [] => []
  | c :: r =>
      if is_lead c then
        match r with
        | d :: r' =>
            if is_trail d then c :: d :: quote_body r'
            else unicode_escape c ++ quote_body r
        | [] => unicode_escape c
        end
      else escape c ++ quote_body r
  end.

Definition quote (s : jsstring) : jsstring := 0x22 :: quote_body s ++ [0x22].

(** The decimal digits of a natural number, most significant first. *)
Fixpoint digits_of_uint (d : Decimal.uint) : jsstring :=
  match d with
  | Decimal.Nil => []
  | Decimal.D0 d => 0x30 :: digits_of_uint d
  | Decimal.D1 d => 0x31 :: digits_of_uint d
  | Decimal.D2 d => 0x32 :: digits_of_uint d
  | Decimal.D3 d => 0x33 :: digits_of_uint d
  | Decimal.D4 d => 0x34 :: digits_of_uint d
  | Decimal.D5 d => 0x35 :: digits_of_uint d
  | Decimal.D6 d => 0x36 :: digits_of_uint d
  | Decimal.D7 d => 0x37 :: digits_of_uint d
  | Decimal.D8 d => 0x38 :: digits_of_uint d
  | Decimal.D9 d => 0x39 :: digits_of_uint d
  end.

Definition number (n : Z) : jsstring :=
  match n with
  | Z0 => [0x30]
  | Zpos p => digits_of_uint (Pos.to_uint p)
  | Zneg p => 0x2D :: digits_of_uint (Pos.to_uint p)
  end.

Definition join (parts : list jsstring) : jsstring :=
  match parts with
  | [] => []
  | p :: ps => p ++ concat (map (λ q, 0x2C :: q) ps)
  end.

(** [JSON.stringify(value)] with no replacer and no indentation. *)
Fixpoint stringify (v : json) : jsstring :=
  match v with
  | JNull => lit "null"
  | JBool true => lit "true"
  | JBool false => lit "false"
  | JNumber n => number n
  | JString s => quote s
  | JArray vs => 0x5B :: join (map stringify vs) ++ [0x5D]
  | JObject ms =>
      0x7B :: join (map (λ m, quote (fst m) ++ 0x3A :: stringify (snd m)) ms)
           ++ [0x7D]
  end.

(** The text of one member of an object. *)
Definition member_text (m : jsstring * json) : jsstring :=
  quote (fst m) ++ 0x3A :: stringify (snd m).

(** *** [JSON.parse] *)

Definition is_ws (c : N) : bool :=
  (c =? 0x20) || (c =? 0x09) || (c =? 0x0A) || (c =? 0x0D).

Fixpoint skip_ws (s : jsstring) : jsstring :=
  match s with
  | c :: r => if is_ws c then skip_ws r else s
  | [] => []
  end.

(** The value of a hexadecimal digit, of either case. *)
Definition hex_value (c : N) : option N :=
  if (0x30 <=? c) && (c <=? 0x39) then Some (c - 0x30)
  else if (0x61 <=? c) && (c <=? 0x66) then Some (c - 0x57)
  else if (0x41 <=? c) && (c <=? 0x46) then Some (c - 0x37)
  else None.

(** The character a one-letter escape stands for. *)
Definition unescape (e : N) : option N :=
  if e =? 0x22 then Some 0x22
  else if e =? 0x5C then Some 0x5C
  else if e =? 0x2F then Some 0x2F
  else if e =? 0x62 then Some 0x08
  else if e =? 0x66 then Some 0x0C
  else if e =? 0x6E then Some 0x0A
  else if e =? 0x72 then Some 0x0D
  else if e =? 0x74 then Some 0x09
  else None.

(** The characters of a string literal after its opening quote, up to and
    including the closing quote; the rest of the text is returned too. *)
Fixpoint parse_chars (s : jsstring) : option (jsstring * jsstring) :=
  match s with
  | [] => None
  | c :: r =>
      if c =? 0x22 then Some ([], r)
      else if c =? 0x5C then
        match r with
        | [] => None
        | e :: r' =>
            if e =? 0x75 then
              match r' with
              | h1 :: h2 :: h3 :: h4 :: r'' =>
                  match hex_value h1, hex_value h2, hex_value h3, hex_value h4 with
                  | Some a, Some b, Some c', Some d =>
                      match parse_chars r'' with
                      | Some (cs, rest) =>
                          Some ((a * 4096 + b * 256 + c' * 16 + d) :: cs, rest)
                      | None => None
                      end
                  | _, _, _, _ => None
                  end
              | _ => None
              end
            else
              match unescape e with
              | Some u =>
                  match parse_chars r' with
                  | Some (cs, rest) => Some (u :: cs, rest)
                  | None => None
                  end
              | None => None
              end
        end
      else if c <? 0x20 then None
      else
        match parse_chars r with
        | Some (cs, rest) => Some (c :: cs, rest)
        | None => None
        end
  end.

Definition is_digit (c : N) : bool := (0x30 <=? c) && (c <=? 0x39).

Fixpoint parse_digits (acc : Z) (s : jsstring) : Z * jsstring :=
  match s with
  | c :: r =>
      if is_digit c then parse_digits (10 * acc + Z.of_N (c - 0x30)) r
      else (acc, s)
  | [] => (acc, [])
  end.

(** An integer literal: [0], or a non-zero digit and more digits.  (A
    fraction or an exponent is left in the rest of the text, where no
    caller accepts it: this parser reads integers only.) *)
Definition parse_int (s : jsstring) : option (Z * jsstring) :=
  match s with
  | c :: r =>
      if c =? 0x30 then Some (0%Z, r)
      else if is_digit c then Some (parse_digits 0 s)
      else None
  | [] => None
  end.

Fixpoint expect (word s : jsstring) : option jsstring :=
  match word, s with
  | [], _ => Some s
  | w :: word', c :: r => if w =? c then expect word' r else None
  | _ :: _, [] => None
  end.

(** Recursive descent; [fuel] bounds the number of nested and chained
    calls. *)
Fixpoint parse_value (fuel : nat) (s : jsstring) : option (json * jsstring) :=
  match fuel with
  | O => None
  | S fuel =>
      match skip_ws s with
      | [] => None
      | c :: r =>
          if c =? 0x7B then
            match skip_ws r with
            | d :: r' =>
                if d =? 0x7D then Some (JObject [], r')
                else
                  match parse_members fuel r with
                  | Some (ms, rest) => Some (JObject ms, rest)
                  | None => None
                  end
            | [] => None
            end
          else if c =? 0x5B then
            match skip_ws r with
            | d :: r' =>
                if d =? 0x5D then Some (JArray [], r')
                else
                  match parse_elements fuel r with
                  | Some (vs, rest) => Some (JArray vs, rest)
                  | None => None
                  end
            | [] => None
            end
          else if c =? 0x22 then
            match parse_chars r with
            | Some (cs, rest) => Some (JString cs, rest)
            | None => None
            end
          else if c =? 0x6E then
            match expect (lit "ull") r with
            | Some rest => Some (JNull, rest)
            | None => None
            end
          else if c =? 0x74 then
            match expect (lit "rue") r with
            | Some rest => Some (JBool true, rest)
            | None => None
            end
          else if c =? 0x66 then
            match expect (lit "alse") r with
            | Some rest => Some (JBool false, rest)
            | None => None
            end
          else if c =? 0x2D then
            match parse_int r with
            | Some (n, rest) => Some (JNumber (- n), rest)
            | None => None
            end
          else
            match parse_int (c :: r) with
            | Some (n, rest) => Some (JNumber n, rest)
            | None => None
            end
      end
  end
with parse_elements (fuel : nat) (s : jsstring)
    : option (list json * jsstring) :=
  match fuel with
  | O => None
  | S fuel =>
      match parse_value fuel s with
      | Some (v, r) =>
          match skip_ws r with
          | c :: r' =>
              if c =? 0x2C then
                match parse_elements fuel r' with
                | Some (vs, rest) => Some (v :: vs, rest)
                | None => None
                end
              else if c =? 0x5D then Some ([v], r')
              else None
          | [] => None
          end
      | None => None
      end
  end
with parse_members (fuel : nat) (s : jsstring)
    : option (list (jsstring * json) * jsstring) :=
  match fuel with
  | O => None
  | S fuel =>
      match skip_ws s with
      | q :: r =>
          if q =? 0x22 then
            match parse_chars r with
            | Some (k, r1) =>
                match skip_ws r1 with
                | c :: r2 =>
                    if c =? 0x3A then
                      match parse_value fuel r2 with
                      | Some (v, r3) =>
                          match skip_ws r3 with
                          | e :: r4 =>
                              if e =? 0x2C then
                                match parse_members fuel r4 with
                                | Some (ms, rest) => Some ((k, v) :: ms, rest)
                                | None => None
                                end
                              else if e =? 0x7D then Some ([(k, v)], r4)
                              else None
                          | [] => None
                          end
                      | None => None
                      end
                    else None
                | [] => None
                end
            | None => None
            end
          else None
      | [] => None
      end
  end.

(** What [parse_chars] returns once it has read the code unit [c]. *)
Definition read (c : N) (k : option (jsstring * jsstring))
    : option (jsstring * jsstring) :=
  match k with
  | Some (cs, rest) => Some (c :: cs, rest)
  | None => None
  end.

(** The values [persist] writes hold one number, the version [0]. *)
Fixpoint storable (j : json) : bool :=
  match j with
  | JNumber n => (n =? 0)%Z
  | JArray vs => forallb storable vs
  | JObject ms => forallb (λ m, storable (snd m)) ms
  | _ => true
  end.

(** The fuel that reading the text of a value takes. *)
Fixpoint cost (j : json) : nat :=
  match j with
  | JArray vs => S (fold_right (λ v n, S (max (cost v) n)) O vs)
  | JObject ms => S (fold_right (λ m n, S (max (cost (snd m)) n)) O ms)
  | _ => 1
  end.

(** [JSON.parse(text)]: one value, then nothing but white space.  [None]
    is the [SyntaxError]. *)
Definition parse (text : jsstring) : option json :=
  match parse_value (S (2 * length text)) text with
  | Some (v, rest) =>
      match skip_ws rest with
      | [] => Some v
      | _ :: _ => None
      end
  | None => None
  end.

End JSON.

(** ** Values and tasks

    The values that reach the store are strings; a property that an object
    does not have reads as [undefined].  [decide (a = b)] on values is [===]. *)

Inductive value : Type :=
  | undefined
  | str (s : jsstring).

#[global] Instance value_eq_dec : EqDecision value.
Proof. solve_decision. Defined.

Module Status.
Definition backlog : value := Eval vm_compute in str (lit "Backlog").
Definition inwork : value := Eval vm_compute in str (lit "В работе").
Definition done : value := Eval vm_compute in str (lit "Выполнено").
Definition empty : value := Eval vm_compute in str (lit "Пусто").
End Status.

Record task : Type := Task {
  id : value;
  title : value;
  description : value;
  status : value;
}.

#[global] Instance task_eq_dec : EqDecision task.
Proof. solve_decision. Defined.

(** ** The persisted item

    [persist] writes [{state, version}] under the store's name; of the
    state, [JSON.stringify] keeps [tasks] and drops the three functions, and
    of a task it drops the properties whose value is [undefined]. *)

Definition name : jsstring := Eval vm_compute in lit "task-tracker-store".

Definition property (key : jsstring) (v : value) : list (jsstring * json) :=
  match v with
  | undefined => []
  | str s => [(key, JString s)]
  end.

Definition task_to_json (t : task) : json :=
  JObject (property (lit "id") (id t) ++ property (lit "title") (title t)
           ++ property (lit "description") (description t)
           ++ property (lit "status") (status t)).

Definition storage_value (ts : list task) : json :=
  JObject [(lit "state", JObject [(lit "tasks", JArray (task_to_json <$> ts))]);
           (lit "version", JNumber 0)].

(** Reading a parsed object: the last member of a given key is the one the
    object keeps. *)
Fixpoint member (key : jsstring) (ms : list (jsstring * json)) : option json :=
  match ms with
  | [] => None
  | (k, v) :: r =>
      match member key r with
      | Some v' => Some v'
      | None => if decide (k = key) then Some v else None
      end
  end.

Definition field (key : jsstring) (ms : list (jsstring * json)) : option value :=
  match member key ms with
  | None => Some undefined
  | Some (JString s) => Some (str s)
  | Some _ => None
  end.

(** A parsed element of [tasks] as a task; [None] when it is not an object
    of string properties, which no task of this program serialises to. *)
Definition task_of_json (j : json) : option task :=
  match j with
  | JObject ms =>
      match field (lit "id") ms, field (lit "title") ms,
            field (lit "description") ms, field (lit "status") ms with
      | Some i, Some t, Some d, Some s => Some (Task i t d s)
      | _, _, _, _ => None
      end
  | _ => None
  end.

(** What [persist] takes from a parsed item: the state when the version is
    the store's version [0] (or is not a number), and of the state its
    [tasks]. *)
Definition persisted_tasks (j : json) : option (list task) :=
  match j with
  | JObject ms =>
      match member (lit "version") ms with
      | Some (JNumber (Zpos _)) | Some (JNumber (Zneg _)) => None
      | _ =>
          match member (lit "state") ms with
          | Some (JObject st) =>
              match member (lit "tasks") st with
              | Some (JArray vs) => mapM task_of_json vs
              | _ => None
              end
          | _ => None
          end
      end
  | _ => None
  end.

Definition serialize (ts : list task) : jsstring :=
  JSON.stringify (storage_value ts).

Definition deserialize (text : jsstring) : option (list task) :=
  JSON.parse text ≫= persisted_tasks.

(** ** The world the program runs in

    The store's [tasks], the browser's [localStorage], and the source of
    [uuid()]: the identifiers it will return, and how many it has returned. *)

Record world : Type := World {
  tasks : list task;
  localStorage : gmap (list N) (list N);
  uuid_stream : nat → jsstring;
  uuid_count : nat;
}.

Definition M (A : Type) : Type := world → A * world.

#[global] Instance M_ret : MRet M := λ A a w, (a, w).
#[global] Instance M_bind : MBind M :=
  λ A B k m w, k (fst (m w)) (snd (m w)).

Definition exec {A} (m : M A) (w : world) : world := snd (m w).
Definition eval {A} (m : M A) (w : world) : A := fst (m w).

(** [uuid()] *)
Definition uuid : M jsstring :=
  λ w, (uuid_stream w (uuid_count w),
        World (tasks w) (localStorage w) (uuid_stream w) (S (uuid_count w))).

(** [get().tasks] *)
Definition get : M (list task) := λ w, (tasks w, w).

(** [set({tasks: ts})], which under [persist] also writes the item.  The
    write is the one that succeeds: a [setItem] that throws, as a full
    storage makes it do, is not part of this model, in which a call to the
    store always returns. *)
Definition set (ts : list task) : M unit :=
  λ w, (tt, World ts (<[name := serialize ts]> (localStorage w))
                  (uuid_stream w) (uuid_count w)).

(** ** The store [useTaskTracker] *)

Definition create (title description : value) : M unit :=
  u ← uuid;
  ts ← get;
  set (Task (str u) title description Status.backlog :: ts).

Definition update (taskId listId : value) : M unit :=
  ts ← get;
  set ((λ task,
          if decide (id task = taskId)
          then Task (id task) (title task) (description task) listId
          else task) <$> ts).

Definition remove (taskId : value) : M unit :=
  ts ← get;
  set (filter (λ task, taskId ≠ id task) ts).

(** The store when the page loads: no tasks, then what [persist] finds in
    [localStorage]; an item that is missing or unreadable leaves the store
    as it is. *)
Definition hydrate : M unit :=
  λ w,
    match localStorage w !! name ≫= deserialize with
    | Some ts => set ts w
    | None => (tt, w)
    end.

Definition load (storage : gmap (list N) (list N)) (ids : nat → jsstring)
    (n : nat) : world :=
  exec hydrate (World [] storage ids n).

(** ** The component [App] *)

Definition dropHandler (status : value) : value → value → M unit :=
  λ taskId _, update taskId status.

(** [drop] of [List]: the dragged item's id and the list's id go to [onDrop]. *)
Definition List_drop (listId : value) (onDrop : value → value → M unit)
    (item_id : value) : M unit :=
  onDrop item_id listId.

Definition taskFilter (ts : list task) (st : value) : M (list task) :=
  let result := filter (λ task, status task = st) ts in
  if decide (0 < length result)%nat then mret result
  else
    u ← uuid;
    mret [Task (str u) undefined undefined Status.empty].

(** The three counters of the [useMemo] loop over [tasks]. *)
Definition count (c : nat * nat * nat) (t : task) : nat * nat * nat :=
  let '(backlogCounter, inworkCounter, doneCounter) := c in
  if decide (status t = Status.backlog)
  then (S backlogCounter, inworkCounter, doneCounter)
  else if decide (status t = Status.inwork)
  then (backlogCounter, S inworkCounter, doneCounter)
  else if decide (status t = Status.done)
  then (backlogCounter, inworkCounter, S doneCounter)
  else c.

Definition counters (ts : list task) : nat * nat * nat :=
  fold_left count ts (0, 0, 0)%nat.

(** ** Numbers

    A JavaScript number is an IEEE 754 binary64 value.  The three counters
    are small whole numbers (one per task of an array), which binary64 holds
    exactly: they are kept as [nat] and enter floating point where the
    percentage is computed. *)

Module Number.

Definition prec : Z := 53.
Definition emax : Z := 1024.

Definition of_nat (n : nat) : spec_float :=
  binary_normalize prec emax (Z.of_nat n) 0 false.

Definition div : spec_float → spec_float → spec_float := SFdiv prec emax.
Definition mul : spec_float → spec_float → spec_float := SFmul prec emax.

Definition isNaN (x : spec_float) : bool :=
  match x with
  | S754_nan => true
  | _ => false
  end.

(** [x.toFixed(f)] for a value [m * 2^e] below 10^21: the whole number [n]
    for which [n / 10^f] is nearest to the value, the larger one of two,
    written in decimal with [f] digits after the point. *)
Definition nearest (f : nat) (m : positive) (e : Z) : Z :=
  let num := (Zpos m * 2 ^ Z.max e 0 * 10 ^ Z.of_nat f)%Z in
  let den := (2 ^ Z.max (- e) 0)%Z in
  ((2 * num + den) / (2 * den))%Z.

Definition below_1e21 (m : positive) (e : Z) : bool :=
  (Zpos m * 2 ^ Z.max e 0 <? 10 ^ 21 * 2 ^ Z.max (- e) 0)%Z.

Definition decimal (f : nat) (n : Z) : jsstring :=
  let m := JSON.digits_of_uint (N.to_uint (Z.to_N n)) in
  let m := if decide (length m ≤ f)%nat
           then replicate (f + 1 - length m)%nat 0x30 ++ m else m in
  let k := length m in
  if decide (f = 0)%nat then m
  else take (k - f)%nat m ++ 0x2E :: drop (k - f)%nat m.

(** [None] stands for the text of a number of 10^21 or more, which
    [toFixed] leaves to [Number::toString]. *)
Definition toFixed (f : nat) (x : spec_float) : option jsstring :=
  match x with
  | S754_nan => Some (lit "NaN")
  | S754_infinity false => Some (lit "Infinity")
  | S754_infinity true => Some (lit "-Infinity")
  | S754_zero _ => Some (decimal f 0)
  | S754_finite s m e =>
      if below_1e21 m e
      then Some ((if s then [0x2D] else []) ++ decimal f (nearest f m e))
      else None
  end.

End Number.

(** What the [useMemo] of [App] returns: the three counters, and as the
    percentage either the number [0] or the text of [toFixed(1)]. *)
Inductive shown : Type :=
  | Num (x : spec_float)
  | Text (s : jsstring).

Definition percentage (backlogCounter inworkCounter doneCounter : nat)
    : spec_float :=
  Number.mul
    (Number.div (Number.of_nat doneCounter)
       (Number.of_nat (backlogCounter + doneCounter + inworkCounter)))
    (Number.of_nat 100).

Definition statistics (ts : list task) : nat * nat * nat * option shown :=
  let '(backlogCounter, inworkCounter, doneCounter) := counters ts in
  let percent := percentage backlogCounter inworkCounter doneCounter in
  (backlogCounter, inworkCounter, doneCounter,
   if Number.isNaN percent then Some (Num (S754_zero false))
   else Text <$> Number.toFixed 1 percent).

(** ** Sequences of calls to the store *)

Inductive call : Type :=
  | Create (title description : value)
  | Update (taskId listId : value)
  | Remove (taskId : value).

Definition perform (c : call) : M unit :=
  match c with
  | Create t d => create t d
  | Update i s => update i s
  | Remove i => remove i
  end.

Fixpoint run (cs : list call) : M unit :=
  match cs with
  | [] => mret tt
  | c :: cs => _ ← perform c; run cs
  end.

(** The statuses a stored task may have. *)
Definition real_status (s : value) : Prop :=
  s = Status.backlog ∨ s = Status.inwork ∨ s = Status.done.

(** A call whose status argument, if it has one, is a real status: what
    every call site of [App.js] passes. *)
Definition real_call (c : call) : Prop :=
  match c with
  | Update _ s => real_status s
  | _ => True
  end.

(** The invariant of the task list: no two tasks share an id, and every
    status is a real status. *)
Definition well_formed (ts : list task) : Prop :=
  NoDup (id <$> ts) ∧ Forall (λ t, real_status (status t)) ts.

(** The identifier [uuid()] returns next is the id of no task. *)
Definition next_uuid_fresh (w : world) : Prop :=
  ∀ t, t ∈ tasks w → id t ≠ str (eval uuid w).

(** Every id in the list is one the source of identifiers has already
    returned: what keeps the ids of the list distinct. *)
Definition drawn (w : world) : Prop :=
  ∀ t, t ∈ tasks w →
       ∃ k, (k < uuid_count w)%nat ∧ id t = str (uuid_stream w k).

(** A source of identifiers for the examples: the n-th is the digit n. *)
Definition sample_ids : nat → jsstring := λ n, [0x30 + N.of_nat n].

Definition sample_task (i : N) (s : value) : task :=
  Task (str [i]) (str (lit "T")) (str (lit "D")) s.

(** ** The rest of [App.js]: the cards, the lists and the page *)

(** [getColorFromStatus]: a [switch] with no default, so any other status
    gives [undefined]. *)
Definition getColorFromStatus (status : value) : value :=
  if decide (status = Status.backlog) then str (lit "badge-default")
  else if decide (status = Status.inwork) then str (lit "badge-info")
  else if decide (status = Status.done) then str (lit "badge-success")
  else undefined.

(** A value inside a template literal. *)
Definition to_text (v : value) : jsstring :=
  match v with
  | undefined => lit "undefined"
  | str s => s
  end.

(** A button of a card: its label, and what a click runs. *)
Record button : Type := Button {
  label : value;
  onClick : M unit;
}.

(** What [Card] renders: the image, the heading, the paragraph, and, unless
    the card is the empty one, the badge (class and text) and the four
    buttons of the menu. *)
Record card : Type := CardView {
  image : jsstring;
  heading : value;
  paragraph : value;
  badge : option (jsstring * value);
  buttons : list button;
}.

(** The two texts that [Card] writes itself. *)
Definition emptyHeading : value := Eval vm_compute in str (lit "Пусто").
Definition removeLabel : value := Eval vm_compute in str (lit "Удалить").

(** [Card]; a [status] that is [undefined] takes the default,
    [Status.done]. *)
Definition Card (title description : value) (onRemove : M unit)
    (status : value) (onUpdate : value → M unit) : card :=
  let status := match status with undefined => Status.done | _ => status end in
  let isEmpty := bool_decide (status = Status.empty) in
  CardView
    (if isEmpty then lit "/empty.jpeg" else lit "/bg.jpg")
    (if isEmpty then emptyHeading else title)
    description
    (if isEmpty then None
     else Some (lit "badge badge-accent " ++ to_text (getColorFromStatus status),
                status))
    (if isEmpty then []
     else [Button Status.backlog (onUpdate Status.backlog);
           Button Status.inwork (onUpdate Status.inwork);
           Button Status.done (onUpdate Status.done);
           Button removeLabel onRemove]).

(** [Item]: what is dragged is [{id}]; the child is the card. *)
Record item : Type := Item {
  item_id : value;
  children : card;
}.

(** [List]: dropping an item calls [onDrop(item.id, listId)]. *)
Record column : Type := List {
  listId : value;
  onDrop : value → value → M unit;
  items : list item;
}.

Definition drop_on (l : column) (dragged : item) : M unit :=
  List_drop (listId l) (onDrop l) (item_id dragged).

(** [taskFilterList(status)], on the [tasks] the component has read. *)
Definition taskFilterList (ts : list task) (st : value) : M (list item) :=
  filtered ← taskFilter ts st;
  mret ((λ task,
           Item (id task)
             (Card (title task) (description task) (remove (id task))
                (status task) (λ _status, update (id task) _status)))
          <$> filtered).

(** The two [useState] cells of [App]. *)
Record form : Type := Form {
  taskTitle : jsstring;
  taskDescription : jsstring;
}.

(** The click handler of the create button: [create] with the two texts,
    then both texts are cleared. *)
Definition createHandler (f : form) : M form :=
  _ ← create (str (taskTitle f)) (str (taskDescription f));
  mret (Form [] []).

(** What [App] renders that the user can act on or read: the create
    button, the statistics, and the three lists. *)
Record page : Type := Page {
  onCreate : M form;
  stats : nat * nat * nat * option shown;
  lists : list column;
}.

Definition App (f : form) : M page :=
  ts ← get;
  backlogItems ← taskFilterList ts Status.backlog;
  inworkItems ← taskFilterList ts Status.inwork;
  doneItems ← taskFilterList ts Status.done;
  mret (Page (createHandler f) (statistics ts)
          [List Status.backlog (dropHandler Status.backlog) backlogItems;
           List Status.inwork (dropHandler Status.inwork) inworkItems;
           List Status.done (dropHandler Status.done) doneItems]).

(** ** What a user does on the page *)

Inductive event : Type :=
  | TypeTitle (text : jsstring)
  | TypeDescription (text : jsstring)
  | ClickCreate
  | ClickButton (list_index item_index button_index : nat)
  | DragDrop (from_list item_index to_list : nat).

(** The item shown at a place of the page, and a button of its card. *)
Definition item_at (p : page) (l i : nat) : option item :=
  match lists p !! l with
  | Some c => items c !! i
  | None => None
  end.

Definition button_at (p : page) (l i b : nat) : option button :=
  match item_at p l i with
  | Some it => buttons (children it) !! b
  | None => None
  end.

(** An event on the page as rendered; an event on something the page does
    not show does nothing. *)
Definition handle (e : event) (p : page) (f : form) : M form :=
  match e with
  | TypeTitle text => mret (Form text (taskDescription f))
  | TypeDescription text => mret (Form (taskTitle f) text)
  | ClickCreate => onCreate p
  | ClickButton l i b =>
      match button_at p l i b with
      | Some btn => _ ← onClick btn; mret f
      | None => mret f
      end
  | DragDrop l i l' =>
      match item_at p l i, lists p !! l' with
      | Some dragged, Some target => _ ← drop_on target dragged; mret f
      | _, _ => mret f
      end
  end.

(** One event: the page is rendered, then the event is handled. *)
Definition step (e : event) (f : form) : M form :=
  p ← App f;
  handle e p f.

Fixpoint session (es : list event) (f : form) : M form :=
  match es with
  | [] => mret f
  | e :: es => f' ← step e f; session es f'
  end.

(** The calls of a sequence that are a [create]. *)
Definition is_create (c : call) : bool :=
  match c with
  | Create _ _ => true
  | _ => false
  end.

Definition creates (calls : list call) : nat :=
  length (filter (λ c, is_create c = true) calls).

(** A status that a task with status [s0] can have after a sequence of
    calls: [s0] itself, or the status some [update] was given. *)
Definition status_from (calls : list call) (s s0 : value) : Prop :=
  s = s0 ∨ ∃ X, Update X s ∈ calls.

#[global] Instance real_status_dec (s : value) : Decision (real_status s).
Proof. unfold real_status. apply _. Defined.

(** The card of a task, as [taskFilterList] builds it. *)
Definition card_of (t : task) : item :=
  Item (id t)
    (Card (title t) (description t) (remove (id t)) (status t)
       (λ _status, update (id t) _status)).

(** An item whose card has the menu, that is, the card of a task and not
    the empty one. *)
Definition is_task_card (it : item) : bool :=
  match buttons (children it) with
  | [] => false
  | _ :: _ => true
  end.

Definition task_cards (c : column) : list item :=
  filter (λ it, is_task_card it = true) (items c).

(** The card of a task with a real status, written out: the image, the
    title, the description, the badge, and the four buttons with what a
    click on each runs. *)
Definition task_card (t : task) : item :=
  Item (id t)
    (CardView (lit "/bg.jpg") (title t) (description t)
       (Some (lit "badge badge-accent "
                ++ to_text (getColorFromStatus (status t)), status t))
       [Button Status.backlog (update (id t) Status.backlog);
        Button Status.inwork (update (id t) Status.inwork);
        Button Status.done (update (id t) Status.done);
        Button removeLabel (remove (id t))]).

(** The empty card, written out. *)
Definition empty_card (u : jsstring) : item :=
  Item (str u) (CardView (lit "/empty.jpeg") emptyHeading undefined None []).

(** ** Bounds on rounded numbers *)

(** A mantissa, an exponent and a rounding location whose value is at most
    [C * 2^g], and below it when the location says that something was cut
    off. *)
Definition tight (C g m e : Z) (l : location) : Prop :=
  (e ≤ g ∧ 0 ≤ m ≤ C * 2 ^ (g - e)
   ∧ (l ≠ loc_Exact → m < C * 2 ^ (g - e)))%Z.

(** A number that is [+0] or positive and at most [C * 2^g]. *)
Definition at_most (C g : Z) (x : spec_float) : Prop :=
  match x with
  | S754_zero false => True
  | S754_finite false m e => (e ≤ g ∧ Zpos m ≤ C * 2 ^ (g - e))%Z
  | _ => False
  end.

(** A record of [shr] from which nothing has been cut off. *)
Definition nothing_lost (r : shr_record) : Prop :=
  shr_r r = false ∧ shr_s r = false.

(** The lists of the page that have no task to show. *)
Definition empty_lists (ts : list task) : nat :=
  length (filter (λ S, filter (λ task, status task = S) ts = [])
            [Status.backlog; Status.inwork; Status.done]).

(** A number that is [+0] or positive, as a mantissa and an exponent:
    [m * 2^e] is its value. *)
Definition represents (x : spec_float) (m e : Z) : Prop :=
  match x with
  | S754_zero false => m = 0%Z
  | S754_finite false p e' => m = Zpos p ∧ e = e'
  | _ => False
  end.

(** The percentage as [done / total * 100] in exact arithmetic, rounded to
    one decimal place, a half going up: the number of tenths. *)
Definition rounded_percentage (done total : nat) : Z :=
  ((2 * (1000 * Z.of_nat done) + Z.of_nat total) / (2 * Z.of_nat total))%Z.

(** A list of [b] tasks in the backlog followed by [d] done ones. *)
Definition backlog_then_done (b d : nat) : list task :=
  ((λ k, Task (str (sample_ids k)) (str (lit "T")) (str (lit "D"))
           Status.backlog) <$> seq 0 b)
  ++ ((λ k, Task (str (sample_ids k)) (str (lit "T")) (str (lit "D"))
              Status.done) <$> seq b d).

(** ** Any value as the status

    [update] puts its second argument into the task as it is, whatever
    kind of value it is.  [task_of V] is a task whose status is of any
    type [V] of values; [task] is the case of [undefined] and strings. *)

Record task_of (V : Type) : Type := TaskOf {
  id_of : value;
  title_of : value;
  description_of : value;
  status_of : V;
}.
Arguments TaskOf {V}.
Arguments id_of {V}.
Arguments title_of {V}.
Arguments description_of {V}.
Arguments status_of {V}.

(** The new list of [update], for a status of any type. *)
Definition update_list {V : Type} (taskId : value) (listId : V)
    (ts : list (task_of V)) : list (task_of V) :=
  (λ task,
     if decide (id_of task = taskId)
     then TaskOf (id_of task) (title_of task) (description_of task) listId
     else task) <$> ts.

Definition widen (t : task) : task_of value :=
  TaskOf (id t) (title t) (description t) (status t).

(** Some values that are not strings: [null], the booleans, [NaN], and
    functions (told apart by a label). *)
Inductive anything : Type :=
  | plain (v : value)
  | any_null
  | any_boolean (b : bool)
  | any_nan
  | any_function (label : nat).

(** What [JSON.stringify] makes of a property with such a value: a number
    that is not finite is written as [null], and a function is left out,
    as [undefined] is. *)
Definition property_of_anything (key : jsstring) (v : anything)
    : list (jsstring * json) :=
  match v with
  | plain v => property key v
  | any_null => [(key, JNull)]
  | any_boolean b => [(key, JBool b)]
  | any_nan => [(key, JNull)]
  | any_function _ => []
  end.

Definition any_task_to_json (t : task_of anything) : json :=
  JObject (property (lit "id") (id_of t)
           ++ property (lit "title") (title_of t)
           ++ property (lit "description") (description_of t)
           ++ property_of_anything (lit "status") (status_of t)).

Definition any_storage_value (ts : list (task_of anything)) : json :=
  JObject [(lit "state",
            JObject [(lit "tasks", JArray (any_task_to_json <$> ts))]);
           (lit "version", JNumber 0)].

Definition serialize_any (ts : list (task_of anything)) : jsstring :=
  JSON.stringify (any_storage_value ts).

(** Reading the status of a parsed task; [None] for a number, an array or
    an object, which none of the values above is written as. *)
Definition anything_of_field (key : jsstring) (ms : list (jsstring * json))
    : option anything :=
  match member key ms with
  | None => Some (plain undefined)
  | Some (JString s) => Some (plain (str s))
  | Some JNull => Some any_null
  | Some (JBool b) => Some (any_boolean b)
  | Some _ => None
  end.

Definition any_task_of_json (j : json) : option (task_of anything) :=
  match j with
  | JObject ms =>
      match field (lit "id") ms, field (lit "title") ms,
            field (lit "description") ms,
            anything_of_field (lit "status") ms with
      | Some i, Some t, Some d, Some s => Some (TaskOf i t d s)
      | _, _, _, _ => None
      end
  | _ => None
  end.

Definition persisted_any_tasks (j : json) : option (list (task_of anything)) :=
  match j with
  | JObject ms =>
      match member (lit "version") ms with
      | Some (JNumber (Zpos _)) | Some (JNumber (Zneg _)) => None
      | _ =>
          match member (lit "state") ms with
          | Some (JObject st) =>
              match member (lit "tasks") st with
              | Some (JArray vs) => mapM any_task_of_json vs
              | _ => None
              end
          | _ => None
          end
      end
  | _ => None
  end.

Definition deserialize_any (text : jsstring)
    : option (list (task_of anything)) :=
  JSON.parse text ≫= persisted_any_tasks.

(** The status that reads back from the item, for each status written. *)
Definition read_back (v : anything) : anything :=
  match v with
  | any_nan => any_null
  | any_function _ => plain undefined
  | _ => v
  end.

Definition as_read (t : task_of anything) : task_of anything :=
  TaskOf (id_of t) (title_of t) (description_of t) (read_back (status_of t)).

(** * Properties of the store *)

Section store_lemmas.
Implicit Types (w : world) (ts : list task) (t : task) (X S T D : value).

Lemma tasks_create w T D :
  tasks (exec (create T D) w)
  = Task (str (eval uuid w)) T D Status.backlog :: tasks w.
Proof. reflexivity. Qed.

Lemma tasks_update w X S :
  tasks (exec (update X S) w)
  = (λ task, if decide (id task = X)
             then Task (id task) (title task) (description task) S
             else task) <$> tasks w.
Proof. reflexivity. Qed.

Lemma tasks_remove w X :
  tasks (exec (remove X) w) = filter (λ task, X ≠ id task) (tasks w).
Proof. reflexivity. Qed.

Lemma ids_update w X S :
  id <$> tasks (exec (update X S) w) = id <$> tasks w.
Proof.
  rewrite tasks_update, <- list_fmap_compose.
  apply list_fmap_ext. intros i t _. simpl. by case_decide.
Qed.

Lemma update_absent ts X S :
  (∀ t, t ∈ ts → id t ≠ X) →
  (λ task, if decide (id task = X)
           then Task (id task) (title task) (description task) S
           else task) <$> ts = ts.
Proof.
  intros Habs. induction ts as [|t ts IH]; [done|].
  rewrite fmap_cons, IH.
  - case_decide as Heq; [|done]. exfalso. eapply Habs; [|exact Heq]. left.
  - intros t' Ht'. apply Habs. by right.
Qed.

Lemma remove_absent ts X :
  (∀ t, t ∈ ts → id t ≠ X) → filter (λ task, X ≠ id task) ts = ts.
Proof.
  intros Habs. induction ts as [|t ts IH]; [done|].
  rewrite filter_cons_True.
  - f_equal. apply IH. intros t' Ht'. apply Habs. by right.
  - intros Heq. eapply Habs; [left|]. done.
Qed.

Lemma remove_present ts X :
  NoDup (id <$> ts) → (∃ t, t ∈ ts ∧ id t = X) →
  ∃ l1 t l2, ts = l1 ++ t :: l2 ∧ id t = X
             ∧ filter (λ task, X ≠ id task) ts = l1 ++ l2.
Proof.
  intros Hnd (t & Hin & Hid).
  apply list_elem_of_split in Hin as (l1 & l2 & ->).
  exists l1, t, l2. split; [done|]. split; [done|].
  rewrite fmap_app, fmap_cons in Hnd.
  apply NoDup_app in Hnd as (_ & Hdisj & Hnd2).
  apply NoDup_cons in Hnd2 as [Hnot _].
  rewrite filter_app, filter_cons_False by (intros H; apply H; done).
  f_equal; apply remove_absent; intros t' Ht' Heq.
  - apply (Hdisj (id t')); [by apply list_elem_of_fmap_2|].
    rewrite Heq, <- Hid. left.
  - apply Hnot. rewrite Hid, <- Heq. by apply list_elem_of_fmap_2.
Qed.

Lemma perform_stream w c : uuid_stream (exec (perform c) w) = uuid_stream w.
Proof. by destruct c. Qed.

Lemma perform_well_formed w c :
  Inj (=) (=) (uuid_stream w) → real_call c →
  well_formed (tasks w) → drawn w →
  well_formed (tasks (exec (perform c) w)) ∧ drawn (exec (perform c) w).
Proof.
  intros Hinj Hreal [Hnd Hst] Hdr. destruct c as [T D|X S|X]; cbn [perform real_call] in *.
  - split; [split|].
    + rewrite tasks_create, fmap_cons. apply NoDup_cons. split; [|done].
      intros Hin. apply list_elem_of_fmap in Hin as (t & Heq & Ht).
      destruct (Hdr t Ht) as (k & Hk & Hidk). simpl in Heq.
      rewrite Hidk in Heq. injection Heq as Heq. apply Hinj in Heq. lia.
    + rewrite tasks_create. apply Forall_cons. split; [by left|done].
    + intros t Ht. rewrite tasks_create in Ht.
      apply elem_of_cons in Ht as [->|Ht].
      * exists (uuid_count w). split; [simpl; lia|done].
      * destruct (Hdr t Ht) as (k & Hk & Hidk). exists k.
        split; [simpl; lia|done].
  - split; [split|].
    + by rewrite ids_update.
    + rewrite tasks_update. apply Forall_fmap.
      eapply Forall_impl; [exact Hst|]. intros t Ht. simpl.
      by case_decide.
    + intros t Ht. rewrite tasks_update in Ht.
      apply list_elem_of_fmap in Ht as (t0 & -> & Ht0).
      destruct (Hdr t0 Ht0) as (k & Hk & Hidk). exists k.
      split; [done|]. by case_decide.
  - split; [split|].
    + rewrite tasks_remove. eapply sublist_NoDup; [exact Hnd|].
      apply fmap_sublist, sublist_filter.
    + rewrite tasks_remove. apply Forall_forall. intros t Ht.
      apply list_elem_of_filter in Ht as [_ Ht].
      rewrite Forall_forall in Hst. by apply Hst.
    + intros t Ht. rewrite tasks_remove in Ht.
      apply list_elem_of_filter in Ht as [_ Ht]. by apply Hdr.
Qed.

End store_lemmas.

Section distinct_ids.
Implicit Types (w : world) (ts : list task) (t : task) (X S T D : value).

Lemma create_drawn w T D : drawn w → drawn (exec (create T D) w).
Proof.
  intros Hdr t Ht. rewrite tasks_create in Ht.
  apply elem_of_cons in Ht as [->|Ht].
  - exists (uuid_count w). split; [simpl; lia|done].
  - destruct (Hdr t Ht) as (k & Hk & Hidk). exists k.
    split; [simpl; lia|done].
Qed.

Lemma drawn_fresh w :
  Inj (=) (=) (uuid_stream w) → drawn w →
  ∀ t, t ∈ tasks w → id t ≠ str (eval uuid w).
Proof.
  intros Hinj Hdr t Ht Heq. destruct (Hdr t Ht) as (k & Hk & Hidk).
  rewrite Hidk in Heq. injection Heq as Heq. apply Hinj in Heq. lia.
Qed.

Lemma perform_distinct w c :
  Inj (=) (=) (uuid_stream w) → NoDup (id <$> tasks w) → drawn w →
  NoDup (id <$> tasks (exec (perform c) w)) ∧ drawn (exec (perform c) w).
Proof.
  intros Hinj Hnd Hdr. destruct c as [T D|X S|X]; cbn [perform].
  - split; [|by apply create_drawn].
    rewrite tasks_create, fmap_cons. apply NoDup_cons. split; [|done].
    intros Hin. apply list_elem_of_fmap in Hin as (t & Heq & Ht).
    by apply (drawn_fresh w Hinj Hdr t Ht).
  - split; [by rewrite ids_update|].
    intros t Ht. rewrite tasks_update in Ht.
    apply list_elem_of_fmap in Ht as (t0 & -> & Ht0).
    destruct (Hdr t0 Ht0) as (k & Hk & Hidk). exists k.
    split; [done|]. by case_decide.
  - split.
    + rewrite tasks_remove. eapply sublist_NoDup; [exact Hnd|].
      apply fmap_sublist, sublist_filter.
    + intros t Ht. rewrite tasks_remove in Ht.
      apply list_elem_of_filter in Ht as [_ Ht]. by apply Hdr.
Qed.

Lemma run_distinct calls : ∀ w,
  Inj (=) (=) (uuid_stream w) → NoDup (id <$> tasks w) → drawn w →
  NoDup (id <$> tasks (exec (run calls) w)).
Proof.
  induction calls as [|c calls IH]; intros w Hinj Hnd Hdr; [done|].
  destruct (perform_distinct w c Hinj Hnd Hdr) as [Hnd' Hdr'].
  change (exec (run (c :: calls)) w)
    with (exec (run calls) (exec (perform c) w)).
  apply IH; [by rewrite perform_stream|done..].
Qed.

Lemma perform_real_statuses w c :
  real_call c → Forall (λ t, real_status (status t)) (tasks w) →
  Forall (λ t, real_status (status t)) (tasks (exec (perform c) w)).
Proof.
  intros Hreal Hst. destruct c as [T D|X S|X]; cbn [perform real_call] in *.
  - rewrite tasks_create. apply Forall_cons. split; [by left|done].
  - rewrite tasks_update. apply Forall_fmap.
    eapply Forall_impl; [exact Hst|]. intros t Ht. simpl. by case_decide.
  - rewrite tasks_remove. apply Forall_forall. intros t Ht.
    apply list_elem_of_filter in Ht as [_ Ht].
    rewrite Forall_forall in Hst. by apply Hst.
Qed.

Lemma run_real_statuses calls : ∀ w,
  Forall real_call calls → Forall (λ t, real_status (status t)) (tasks w) →
  Forall (λ t, real_status (status t)) (tasks (exec (run calls) w)).
Proof.
  induction calls as [|c calls IH]; intros w Hreal Hst; [done|].
  apply Forall_cons in Hreal as [Hc Hreal].
  change (exec (run (c :: calls)) w)
    with (exec (run calls) (exec (perform c) w)).
  apply IH; [done|]. by apply perform_real_statuses.
Qed.
End distinct_ids.

(** * [JSON.parse] after [JSON.stringify] *)

(** Comparisons of code units, from booleans to propositions. *)
Ltac code_units :=
  repeat match goal with
    | H : _ && _ = true |- _ => apply andb_true_iff in H as [? ?]
    | H : _ || _ = true |- _ => apply orb_true_iff in H as [?|?]
    | H : _ && _ = false |- _ => apply andb_false_iff in H as [?|?]
    | H : _ || _ = false |- _ => apply orb_false_iff in H as [? ?]
    | H : (_ <=? _) = true |- _ => apply N.leb_le in H
    | H : (_ <=? _) = false |- _ => apply N.leb_gt in H
    | H : (_ <? _) = true |- _ => apply N.ltb_lt in H
    | H : (_ <? _) = false |- _ => apply N.ltb_ge in H
    | H : (_ =? _) = true |- _ => apply N.eqb_eq in H
    | H : (_ =? _) = false |- _ => apply N.eqb_neq in H
    end;
  try lia.

Section strings.
Import JSON.

Lemma hex_value_hex_digit d : d < 16 → hex_value (hex_digit d) = Some d.
Proof.
  intros Hd.
  assert (d = 0 ∨ d = 1 ∨ d = 2 ∨ d = 3 ∨ d = 4 ∨ d = 5 ∨ d = 6 ∨ d = 7
          ∨ d = 8 ∨ d = 9 ∨ d = 10 ∨ d = 11 ∨ d = 12 ∨ d = 13 ∨ d = 14
          ∨ d = 15) as Hcases by lia.
  repeat (destruct Hcases as [->|Hcases]; [reflexivity|]).
  by subst d.
Qed.

Lemma hex_digits_value c :
  c < 65536 →
  (c / 4096 mod 16) * 4096 + (c / 256 mod 16) * 256 + (c / 16 mod 16) * 16
  + c mod 16 = c.
Proof.
  intros Hc.
  assert (c / 256 = c / 16 / 16) as -> by (by rewrite N.Div0.div_div).
  assert (c / 4096 = c / 16 / 16 / 16) as -> by (by rewrite !N.Div0.div_div).
  pose proof (N.div_mod c 16 ltac:(done)) as H0.
  pose proof (N.div_mod (c / 16) 16 ltac:(done)) as H1.
  pose proof (N.div_mod (c / 16 / 16) 16 ltac:(done)) as H2.
  pose proof (N.mod_lt c 16 ltac:(done)) as L0.
  pose proof (N.mod_lt (c / 16) 16 ltac:(done)) as L1.
  pose proof (N.mod_lt (c / 16 / 16) 16 ltac:(done)) as L2.
  assert (c / 16 / 16 / 16 < 16) as L3.
  { revert H0 H1 H2 L0 L1 L2.
    generalize (c mod 16), (c / 16), ((c / 16) mod 16), (c / 16 / 16),
      ((c / 16 / 16) mod 16), (c / 16 / 16 / 16).
    intros r0 q1 r1 q2 r2 q3 ??????. lia. }
  rewrite (N.mod_small (c / 16 / 16 / 16)) by exact L3.
  revert H0 H1 H2 L0 L1 L2 L3.
  generalize (c mod 16), (c / 16), ((c / 16) mod 16), (c / 16 / 16),
    ((c / 16 / 16) mod 16), (c / 16 / 16 / 16).
  intros r0 q1 r1 q2 r2 q3 ???????. lia.
Qed.

Lemma parse_chars_literal c k :
  c ≠ 0x22 → c ≠ 0x5C → 0x20 ≤ c →
  parse_chars (c :: k) = read c (parse_chars k).
Proof.
  intros H1 H2 H3. simpl.
  destruct (N.eqb_spec c 0x22); [done|].
  destruct (N.eqb_spec c 0x5C); [done|].
  destruct (N.ltb_spec c 0x20); [lia|]. done.
Qed.

Lemma parse_chars_unicode_escape c k :
  c < 65536 →
  parse_chars (unicode_escape c ++ k) = read c (parse_chars k).
Proof.
  intros Hc. unfold unicode_escape.
  cbn [parse_chars app N.eqb Pos.eqb].
  rewrite !hex_value_hex_digit by (apply N.mod_lt; done).
  by rewrite hex_digits_value.
Qed.

Lemma parse_chars_escape c k :
  parse_chars (escape c ++ k) = read c (parse_chars k).
Proof.
  unfold escape.
  destruct (N.eqb_spec c 0x08) as [->|?]; [done|].
  destruct (N.eqb_spec c 0x09) as [->|?]; [done|].
  destruct (N.eqb_spec c 0x0A) as [->|?]; [done|].
  destruct (N.eqb_spec c 0x0C) as [->|?]; [done|].
  destruct (N.eqb_spec c 0x0D) as [->|?]; [done|].
  destruct (N.eqb_spec c 0x22) as [->|?]; [done|].
  destruct (N.eqb_spec c 0x5C) as [->|?]; [done|].
  destruct ((c <? 0x20) || is_lead c || is_trail c) eqn:Hesc.
  - apply parse_chars_unicode_escape.
    unfold is_lead, is_trail in Hesc. code_units.
  - apply parse_chars_literal; [done..|]. code_units.
Qed.

Lemma quote_body_cons c r :
  quote_body (c :: r)
  = if is_lead c then
      match r with
      | d :: r' =>
          if is_trail d then c :: d :: quote_body r'
          else unicode_escape c ++ quote_body r
      | [] => unicode_escape c
      end
    else escape c ++ quote_body r.
Proof. reflexivity. Qed.

Lemma parse_chars_quote_body s : ∀ rest,
  parse_chars (quote_body s ++ 0x22 :: rest) = Some (s, rest)
  ∧ ∀ c, parse_chars (quote_body (c :: s) ++ 0x22 :: rest)
         = Some (c :: s, rest).
Proof.
  induction s as [|d s IH]; intros rest.
  - split; [done|]. intros c. simpl.
    destruct (is_lead c) eqn:Hlead.
    + rewrite parse_chars_unicode_escape; [done|].
      unfold is_lead in Hlead. code_units.
    + by rewrite <- app_assoc, parse_chars_escape.
  - destruct (IH rest) as [IH0 IH1]. split; [apply IH1|].
    intros c. rewrite (quote_body_cons c).
    destruct (is_lead c) eqn:Hlead; [destruct (is_trail d) eqn:Htrail|].
    + change ((c :: d :: quote_body s) ++ 0x22 :: rest)
        with (c :: d :: (quote_body s ++ 0x22 :: rest)).
      unfold is_lead in Hlead. unfold is_trail in Htrail. code_units.
      rewrite parse_chars_literal by lia.
      rewrite parse_chars_literal by lia.
      by rewrite IH0.
    + rewrite <- app_assoc, parse_chars_unicode_escape.
      * by rewrite IH1.
      * unfold is_lead in Hlead. code_units.
    + by rewrite <- app_assoc, parse_chars_escape, IH1.
Qed.

Lemma parse_chars_quote s rest :
  parse_chars (quote_body s ++ 0x22 :: rest) = Some (s, rest).
Proof. apply parse_chars_quote_body. Qed.
End strings.

Section values.
Import JSON.

Lemma join_cons2 p q ps : join (p :: q :: ps) = p ++ 0x2C :: join (q :: ps).
Proof. reflexivity. Qed.

Lemma stringify_array vs :
  stringify (JArray vs) = 0x5B :: join (map stringify vs) ++ [0x5D].
Proof. reflexivity. Qed.

Lemma stringify_object ms :
  stringify (JObject ms) = 0x7B :: join (map JSON.member_text ms) ++ [0x7D].
Proof. reflexivity. Qed.

Lemma stringify_head j :
  storable j = true →
  ∃ c r, stringify j = c :: r ∧ is_ws c = false ∧ c ≠ 0x5D ∧ c ≠ 0x7D.
Proof.
  intros Hst. destruct j as [|[]|n|s|vs|ms]; try (by eexists _, _).
  simpl in Hst. apply Z.eqb_eq in Hst as ->. by eexists _, _.
Qed.

Lemma parse_value_array f c r :
  is_ws c = false → c ≠ 0x5D →
  parse_value (S f) (0x5B :: c :: r)
  = match parse_elements f (c :: r) with
    | Some (vs, rest) => Some (JArray vs, rest)
    | None => None
    end.
Proof.
  intros Hws Hc. cbn [parse_value skip_ws is_ws N.eqb Pos.eqb orb].
  rewrite Hws. by destruct (N.eqb_spec c 0x5D).
Qed.

Lemma parse_value_object f r :
  parse_value (S f) (0x7B :: 0x22 :: r)
  = match parse_members f (0x22 :: r) with
    | Some (ms, rest) => Some (JObject ms, rest)
    | None => None
    end.
Proof. reflexivity. Qed.

Lemma parse_stringify_fuel (f : nat) :
  (∀ j rest, storable j = true → (cost j ≤ f)%nat →
     parse_value f (stringify j ++ rest) = Some (j, rest))
  ∧ (∀ v vs rest, forallb storable (v :: vs) = true →
       (fold_right (λ v n, S (max (cost v) n)) O (v :: vs) ≤ f)%nat →
       parse_elements f (join (map stringify (v :: vs)) ++ 0x5D :: rest)
       = Some (v :: vs, rest))
  ∧ (∀ m ms rest, forallb (λ m, storable (snd m)) (m :: ms) = true →
       (fold_right (λ m n, S (max (cost (snd m)) n)) O (m :: ms) ≤ f)%nat →
       parse_members f (join (map JSON.member_text (m :: ms)) ++ 0x7D :: rest)
       = Some (m :: ms, rest)).
Proof.
  induction f as [|f (IHv & IHe & IHm)].
  { split; [|split].
    - intros j rest _ Hc. destruct j; simpl in Hc; lia.
    - intros v vs rest _ Hc. simpl in Hc. lia.
    - intros m ms rest _ Hc. simpl in Hc. lia. }
  split; [|split].
  - intros j rest Hst Hc. destruct j as [|b|n| s|vs|ms].
    + reflexivity.
    + by destruct b.
    + simpl in Hst. apply Z.eqb_eq in Hst as ->. reflexivity.
    + change (stringify (JString s) ++ rest)
        with (0x22 :: (quote_body s ++ [0x22]) ++ rest).
      rewrite <- app_assoc.
      cbn [app parse_value skip_ws is_ws N.eqb Pos.eqb orb].
      by rewrite parse_chars_quote.
    + rewrite stringify_array.
      destruct vs as [|v vs]; [reflexivity|].
      change ((0x5B :: ?a ++ [0x5D]) ++ rest)
        with (0x5B :: (a ++ [0x5D]) ++ rest).
      rewrite <- app_assoc. cbn [app].
      assert (storable v = true) as Hv
        by (simpl in Hst; by apply andb_true_iff in Hst as [? _]).
      destruct (stringify_head v Hv) as (c & r & Hhead & Hws & Hc1 & _).
      assert (∃ r', join (map stringify (v :: vs)) ++ 0x5D :: rest = c :: r')
        as [r' Hr'].
      { destruct vs; [cbn [map join concat]; rewrite app_nil_r
                     |cbn [map]; rewrite join_cons2];
          rewrite Hhead; by eexists. }
      rewrite Hr', parse_value_array, <- Hr' by done.
      rewrite IHe; [done|exact Hst|]. cbn [cost] in Hc. lia.
    + rewrite stringify_object.
      destruct ms as [|m ms]; [reflexivity|].
      change ((0x7B :: ?a ++ [0x7D]) ++ rest)
        with (0x7B :: (a ++ [0x7D]) ++ rest).
      rewrite <- app_assoc. cbn [app].
      assert (∃ r', join (map JSON.member_text (m :: ms)) ++ 0x7D :: rest
                    = 0x22 :: r') as [r' Hr'].
      { destruct ms; [cbn [map join concat]; rewrite app_nil_r
                     |cbn [map]; rewrite join_cons2]; by eexists. }
      rewrite Hr', parse_value_object, <- Hr'.
      rewrite IHm; [done|exact Hst|]. cbn [cost] in Hc. lia.
  - intros v vs rest Hst Hc.
    cbn [forallb] in Hst. apply andb_true_iff in Hst as [Hv Hvs].
    cbn [fold_right] in Hc.
    cbn [parse_elements].
    destruct vs as [|v' vs].
    + cbn [map join concat]. rewrite app_nil_r.
      rewrite IHv by (done || lia). reflexivity.
    + cbn [map]. rewrite join_cons2, <- app_assoc. cbn [app].
      rewrite IHv by (done || lia).
      cbn [skip_ws is_ws N.eqb Pos.eqb orb].
      change (stringify v' :: map stringify vs)
        with (map stringify (v' :: vs)).
      rewrite (IHe v' vs rest Hvs) by lia. reflexivity.
  - intros [k v] ms rest Hst Hc.
    cbn [forallb snd] in Hst. apply andb_true_iff in Hst as [Hv Hms].
    cbn [fold_right snd] in Hc.
    assert (∀ tail, parse_members (S f) (JSON.member_text (k, v) ++ tail)
              = match skip_ws tail with
                | e :: r4 =>
                    if e =? 0x2C then
                      match parse_members f r4 with
                      | Some (ms, rest) => Some ((k, v) :: ms, rest)
                      | None => None
                      end
                    else if e =? 0x7D then Some ([(k, v)], r4)
                    else None
                | [] => None
                end) as Hstep.
    { intros tail. unfold JSON.member_text, quote. cbn [fst snd].
      rewrite <- !app_assoc.
      cbn [app parse_members skip_ws is_ws N.eqb Pos.eqb orb].
      rewrite <- app_assoc. cbn [app]. rewrite parse_chars_quote.
      cbn [skip_ws is_ws N.eqb Pos.eqb orb].
      rewrite IHv by (done || lia). reflexivity. }
    destruct ms as [|m' ms].
    + cbn [map join concat]. rewrite app_nil_r, Hstep. reflexivity.
    + cbn [map]. rewrite join_cons2, <- app_assoc. cbn [app].
      rewrite Hstep. cbn [skip_ws is_ws N.eqb Pos.eqb orb].
      change (JSON.member_text m' :: map JSON.member_text ms)
        with (map JSON.member_text (m' :: ms)).
      rewrite (IHm m' ms rest Hms) by lia. reflexivity.
Qed.
End values.

Section round_trip.
Import JSON.

Lemma json_nested_ind (P : json → Prop) :
  P JNull → (∀ b, P (JBool b)) → (∀ n, P (JNumber n)) →
  (∀ s, P (JString s)) →
  (∀ vs, Forall P vs → P (JArray vs)) →
  (∀ ms, Forall (λ m, P (snd m)) ms → P (JObject ms)) →
  ∀ j, P j.
Proof.
  intros Hnull Hbool Hnum Hstr Harr Hobj. fix IH 1.
  intros [|b|n|s|vs|ms]; [done..| |].
  - apply Harr. induction vs as [|v vs IHvs]; constructor; [apply IH|done].
  - apply Hobj. induction ms as [|m ms IHms]; constructor; [apply IH|done].
Qed.

Lemma length_join_cons2 p q ps :
  length (join (p :: q :: ps)) = (length p + S (length (join (q :: ps))))%nat.
Proof. rewrite join_cons2, length_app. reflexivity. Qed.

(** The text of a list is long enough to pay for reading it. *)
Lemma fold_cost_le {A} (c : A → nat) (text : A → jsstring) (l : list A) :
  Forall (λ x, (c x ≤ length (text x))%nat) l →
  (fold_right (λ x n, S (max (c x) n)) O l
   ≤ S (length (join (map text l))))%nat.
Proof.
  induction 1 as [|x l Hx Hl IH]; [simpl; lia|].
  cbn [fold_right map]. destruct l as [|y l].
  - cbn [fold_right map join concat]. rewrite app_nil_r. lia.
  - cbn [map] in *. rewrite length_join_cons2. lia.
Qed.

Lemma cost_le_length j :
  storable j = true → (cost j ≤ length (stringify j))%nat.
Proof.
  induction j as [|b|n|s|vs IH|ms IH] using json_nested_ind; intros Hst.
  - simpl. lia.
  - destruct b; simpl; lia.
  - simpl in Hst. apply Z.eqb_eq in Hst as ->. simpl. lia.
  - simpl. lia.
  - rewrite stringify_array. cbn [cost length]. rewrite length_app.
    pose proof (fold_cost_le cost stringify vs) as Hle.
    cbn [length]. 
    assert (Forall (λ x, (cost x ≤ length (stringify x))%nat) vs) as Hall.
    { simpl in Hst. rewrite Forall_forall in IH. apply Forall_forall.
      intros v Hv. apply IH; [done|].
      rewrite forallb_forall in Hst. apply Hst. by apply list_elem_of_In. }
    specialize (Hle Hall). lia.
  - rewrite stringify_object. cbn [cost length]. rewrite length_app.
    pose proof (fold_cost_le (λ m, cost (snd m)) JSON.member_text ms) as Hle.
    cbn [length].
    assert (Forall (λ m, (cost (snd m) ≤ length (JSON.member_text m))%nat) ms)
      as Hall.
    { simpl in Hst. rewrite Forall_forall in IH. apply Forall_forall.
      intros m Hm. unfold JSON.member_text. rewrite length_app. cbn [length].
      assert (cost (snd m) ≤ length (stringify (snd m)))%nat; [|lia].
      apply IH; [done|].
      rewrite forallb_forall in Hst. apply Hst. by apply list_elem_of_In. }
    specialize (Hle Hall). lia.
Qed.

(** [JSON.parse] gives back every value of this program that
    [JSON.stringify] has written. *)
Lemma parse_stringify j :
  storable j = true → parse (stringify j) = Some j.
Proof.
  intros Hst. unfold parse.
  rewrite <- (app_nil_r (stringify j)) at 2.
  destruct (parse_stringify_fuel (S (2 * length (stringify j)))) as [Hv _].
  rewrite Hv; [done..|]. pose proof (cost_le_length j Hst). lia.
Qed.
End round_trip.

Section persistence.
Implicit Types (w : world) (ts : list task) (t : task).

Lemma task_of_json_to_json t : task_of_json (task_to_json t) = Some t.
Proof. by destruct t as [[|i] [|ti] [|d] [|s]]. Qed.

Lemma storable_task t : JSON.storable (task_to_json t) = true.
Proof. by destruct t as [[|i] [|ti] [|d] [|s]]. Qed.

Lemma storable_storage_value ts : JSON.storable (storage_value ts) = true.
Proof.
  unfold storage_value. cbn [JSON.storable forallb snd].
  rewrite !andb_true_r. apply forallb_forall. intros j Hj.
  apply list_elem_of_In, list_elem_of_fmap in Hj as (t & -> & _).
  apply storable_task.
Qed.

Lemma persisted_tasks_storage_value ts :
  persisted_tasks (storage_value ts) = Some ts.
Proof.
  change (persisted_tasks (storage_value ts))
    with (mapM task_of_json (task_to_json <$> ts)).
  apply mapM_Some_2, Forall2_fmap_l, Forall_Forall2_diag, Forall_forall.
  intros t _. apply task_of_json_to_json.
Qed.

(** Reading back what was written gives the list that was written. *)
Lemma deserialize_serialize ts : deserialize (serialize ts) = Some ts.
Proof.
  unfold deserialize, serialize.
  rewrite parse_stringify by apply storable_storage_value.
  apply persisted_tasks_storage_value.
Qed.

Lemma storage_set w ts :
  localStorage (exec (set ts) w) !! name = Some (serialize ts).
Proof. apply lookup_insert_eq. Qed.

Lemma tasks_load storage ids n ts :
  storage !! name = Some (serialize ts) →
  tasks (load storage ids n) = ts.
Proof.
  intros Hitem. unfold load, exec, hydrate. cbn [localStorage].
  rewrite Hitem. cbn [mbind option_bind]. by rewrite deserialize_serialize.
Qed.
End persistence.

(** * The store: [create], [update], [remove] *)

(** C1, as amended.  Starting from the empty list, every sequence of
    [create], [update] and [remove] calls leaves a list with no duplicate
    ids, given only that [uuid()] never returns the same identifier twice;
    and when every [update] of the sequence passes one of the three real
    statuses, every status in the list is [Backlog], [InProgress] or
    [Done]. *)
Theorem calls_keep_the_ids_distinct_and_real_calls_the_statuses_real
    (w : world) (calls : list call) :
  tasks w = [] →
  (Inj (=) (=) (uuid_stream w) → NoDup (id <$> tasks (exec (run calls) w)))
  ∧ (Forall real_call calls →
     Forall (λ t, real_status (status t)) (tasks (exec (run calls) w))).
Proof.
  intros Hempty. split.
  - intros Hinj. apply run_distinct; [done| |].
    + rewrite Hempty. apply NoDup_nil_2.
    + intros t Ht. rewrite Hempty in Ht. by apply elem_of_nil in Ht.
  - intros Hreal. apply run_real_statuses; [done|].
    rewrite Hempty. apply Forall_nil_2.
Qed.

Lemma sample_ids_inj : Inj (=) (=) sample_ids.
Proof. intros i j H. injection H as H. lia. Qed.

Lemma calls_keep_the_ids_distinct_and_real_calls_the_statuses_real_witness :
  NoDup
    (id <$> tasks
       (exec (run [Create (str (lit "T")) (str (lit "D"));
                   Create (str (lit "U")) undefined;
                   Update (str (sample_ids 0)) Status.done;
                   Remove (str (sample_ids 1))])
          (World [] ∅ sample_ids 0)))
  ∧ Forall (λ t, real_status (status t))
      (tasks
         (exec (run [Create (str (lit "T")) (str (lit "D"));
                     Create (str (lit "U")) undefined;
                     Update (str (sample_ids 0)) Status.done;
                     Remove (str (sample_ids 1))])
            (World [] ∅ sample_ids 0))).
Proof.
  destruct (calls_keep_the_ids_distinct_and_real_calls_the_statuses_real
              (World [] ∅ sample_ids 0)
              [Create (str (lit "T")) (str (lit "D"));
               Create (str (lit "U")) undefined;
               Update (str (sample_ids 0)) Status.done;
               Remove (str (sample_ids 1))]) as [Hids Hstatuses].
  - reflexivity.
  - split.
    + apply Hids. exact sample_ids_inj.
    + apply Hstatuses.
      constructor; [exact I|]. constructor; [exact I|].
      constructor; [right; right; reflexivity|].
      constructor; [exact I|]. constructor.
Defined.

(** C1, as stated, fails: [update] stores whatever status it is given, so
    one [create] and one [update] to [Empty] leave a task whose status is
    not a real status. *)
Lemma update_to_empty_breaks_the_status_invariant :
  ¬ well_formed
      (tasks
         (exec (run [Create (str (lit "T")) (str (lit "D"));
                     Update (str (sample_ids 0)) Status.empty])
            (World [] ∅ sample_ids 0))).
Proof.
  intros [_ Hst]. vm_compute in Hst.
  apply Forall_cons in Hst as [[H|[H|H]] _]; discriminate H.
Qed.

(** C2.  [create(T, D)] puts at index 0 a task with title [T], description
    [D], status [Backlog] and the id that [uuid()] returned; the tasks that
    were in the list follow, unchanged and in their order.  That id differs
    from the id of every task that was in the list: [uuid()] never returns
    the same identifier twice, and the ids of the list are identifiers it
    returned before.  [create] uses the identifier up: the ids of the new
    list are again identifiers that [uuid()] has returned, and the next one
    is another. *)
Theorem create_prepends_a_backlog_task (w : world) (T D : value) :
  Inj (=) (=) (uuid_stream w) →
  drawn w →
  ∃ new,
    tasks (exec (create T D) w) = new :: tasks w
    ∧ tasks (exec (create T D) w) !! 0%nat = Some new
    ∧ id new = str (eval uuid w) ∧ title new = T ∧ description new = D
    ∧ status new = Status.backlog
    ∧ (∀ t, t ∈ tasks w → id t ≠ id new)
    ∧ (∀ i t, tasks w !! i = Some t →
              tasks (exec (create T D) w) !! S i = Some t)
    ∧ (NoDup (id <$> tasks w) → NoDup (id <$> tasks (exec (create T D) w)))
    ∧ drawn (exec (create T D) w)
    ∧ eval uuid (exec (create T D) w) ≠ eval uuid w.
Proof.
  intros Hinj Hdr. exists (Task (str (eval uuid w)) T D Status.backlog).
  rewrite tasks_create.
  split; [done|]. split; [done|]. split; [done|]. split; [done|].
  split; [done|]. split; [done|].
  split; [by apply drawn_fresh|]. split; [done|]. split; [|split].
  - intros Hnd. rewrite fmap_cons. apply NoDup_cons. split; [|done].
    intros Hin. apply list_elem_of_fmap in Hin as (t & Heq & Ht).
    by apply (drawn_fresh w Hinj Hdr t Ht).
  - by apply create_drawn.
  - intros Heq. apply Hinj in Heq.
    change (S (uuid_count w) = uuid_count w) in Heq. lia.
Qed.

Lemma create_prepends_a_backlog_task_witness :
  ∃ new,
    tasks (exec (create (str (lit "T")) (str (lit "D")))
             (World [Task (str (sample_ids 0)) (str (lit "U")) undefined
                       Status.done] ∅ sample_ids 1))
    = [new; Task (str (sample_ids 0)) (str (lit "U")) undefined Status.done]
    ∧ id new = str (sample_ids 1) ∧ status new = Status.backlog
    ∧ id new ≠ str (sample_ids 0).
Proof.
  destruct (create_prepends_a_backlog_task
              (World [Task (str (sample_ids 0)) (str (lit "U")) undefined
                        Status.done] ∅ sample_ids 1)
              (str (lit "T")) (str (lit "D")))
    as (new & Heq & _ & Hid & _ & _ & Hst & Hfresh & _).
  - exact sample_ids_inj.
  - intros t Ht. apply list_elem_of_singleton in Ht as ->.
    exists 0%nat. split; [apply Nat.lt_0_1|reflexivity].
  - exists new. split; [exact Heq|]. split; [exact Hid|].
    split; [exact Hst|]. intros Hnew.
    apply (Hfresh (Task (str (sample_ids 0)) (str (lit "U")) undefined
                     Status.done)); [left|]. symmetry. exact Hnew.
Defined.

(** C3.  On a list that holds a task with id [X], [update(X, S)] keeps the
    length and the order: at every index, the task with id [X] keeps its id,
    title and description and gets status [S], and a task with another id is
    the task that was there. *)
Theorem update_changes_only_the_status (w : world) (X S : value) :
  (∃ t, t ∈ tasks w ∧ id t = X) →
  let ts' := tasks (exec (update X S) w) in
  length ts' = length (tasks w)
  ∧ (∀ i t, tasks w !! i = Some t →
       ∃ t', ts' !! i = Some t'
             ∧ id t' = id t ∧ title t' = title t
             ∧ description t' = description t
             ∧ (id t = X → status t' = S)
             ∧ (id t ≠ X → t' = t))
  ∧ (∃ i t', ts' !! i = Some t' ∧ id t' = X ∧ status t' = S).
Proof.
  intros (t & Hin & Hid) ts'. subst ts'. rewrite tasks_update.
  split; [by rewrite length_fmap|]. split.
  - intros i t0 Hi. rewrite list_lookup_fmap, Hi. simpl.
    case_decide as Hd; eexists; (split; [reflexivity|]); simpl; done.
  - apply list_elem_of_lookup in Hin as [i Hi]. exists i.
    rewrite list_lookup_fmap, Hi. simpl.
    rewrite decide_True by done. eexists. split; [reflexivity|]. done.
Qed.

Lemma update_changes_only_the_status_witness :
  tasks (exec (update (str [0x62]) Status.done)
           (World [sample_task 0x61 Status.backlog;
                   sample_task 0x62 Status.inwork] ∅ sample_ids 0))
    !! 1%nat = Some (sample_task 0x62 Status.done).
Proof.
  destruct (update_changes_only_the_status
              (World [sample_task 0x61 Status.backlog;
                      sample_task 0x62 Status.inwork] ∅ sample_ids 0)
              (str [0x62]) Status.done) as (_ & _ & _).
  - exists (sample_task 0x62 Status.inwork). split; [|reflexivity].
    right. left.
  - reflexivity.
Defined.

(** C4.  [update(X, S)] with an id [X] that no task has leaves the list as
    it was ([update] is a total function: nothing is raised). *)
Theorem update_of_an_absent_id_is_a_noop (w : world) (X S : value) :
  (∀ t, t ∈ tasks w → id t ≠ X) →
  tasks (exec (update X S) w) = tasks w.
Proof. intros Habs. rewrite tasks_update. by apply update_absent. Qed.

Lemma update_of_an_absent_id_is_a_noop_witness :
  tasks (exec (update (str [0x7A]) Status.done)
           (World [sample_task 0x61 Status.backlog] ∅ sample_ids 0))
  = [sample_task 0x61 Status.backlog].
Proof.
  apply (update_of_an_absent_id_is_a_noop
           (World [sample_task 0x61 Status.backlog] ∅ sample_ids 0)).
  intros t Ht. apply list_elem_of_singleton in Ht as ->. discriminate.
Defined.

(** C5.  On a list with unique ids that holds a task with id [X],
    [remove(X)] takes out that task and nothing else: the list is one
    shorter and the other tasks keep their order.  With an id that no task
    has, [remove] leaves the list as it was. *)
Theorem remove_takes_out_exactly_that_task (w : world) (X : value) :
  (NoDup (id <$> tasks w) → (∃ t, t ∈ tasks w ∧ id t = X) →
   ∃ l1 t l2,
     tasks w = l1 ++ t :: l2 ∧ id t = X
     ∧ tasks (exec (remove X) w) = l1 ++ l2
     ∧ (∀ t', t' ∈ l1 ++ l2 → id t' ≠ X)
     ∧ S (length (tasks (exec (remove X) w))) = length (tasks w))
  ∧ ((∀ t, t ∈ tasks w → id t ≠ X) → tasks (exec (remove X) w) = tasks w).
Proof.
  split.
  - intros Hnd Hin. rewrite tasks_remove.
    destruct (remove_present (tasks w) X Hnd Hin) as (l1 & t & l2 & Hw & Hid & Hrm).
    exists l1, t, l2. split; [done|]. split; [done|]. split; [done|]. split.
    + intros t' Ht'. rewrite <- Hrm in Ht'.
      apply list_elem_of_filter in Ht' as [Hne _]. congruence.
    + rewrite Hrm, Hw, !length_app. simpl. lia.
  - intros Habs. rewrite tasks_remove. by apply remove_absent.
Qed.

Lemma remove_takes_out_exactly_that_task_witness :
  tasks (exec (remove (str [0x62]))
           (World [sample_task 0x61 Status.backlog;
                   sample_task 0x62 Status.inwork;
                   sample_task 0x63 Status.done] ∅ sample_ids 0))
  = [sample_task 0x61 Status.backlog; sample_task 0x63 Status.done]
  ∧ tasks (exec (remove (str [0x7A]))
             (World [sample_task 0x61 Status.backlog] ∅ sample_ids 0))
    = [sample_task 0x61 Status.backlog].
Proof.
  split.
  - destruct (remove_takes_out_exactly_that_task
                (World [sample_task 0x61 Status.backlog;
                        sample_task 0x62 Status.inwork;
                        sample_task 0x63 Status.done] ∅ sample_ids 0)
                (str [0x62])) as [Hpresent _].
    destruct Hpresent as (l1 & t & l2 & _).
    + apply (bool_decide_unpack _). vm_compute. exact I.
    + exists (sample_task 0x62 Status.inwork). split; [|reflexivity].
      right. left.
    + reflexivity.
  - apply (remove_takes_out_exactly_that_task
             (World [sample_task 0x61 Status.backlog] ∅ sample_ids 0)).
    intros t Ht. apply list_elem_of_singleton in Ht as ->. discriminate.
Defined.

(** * The columns and the placeholder *)

Lemma count_empty (c : nat * nat * nat) (p : task) :
  status p = Status.empty → count c p = c.
Proof.
  intros Hp. destruct c as [[b i] d]. unfold count. rewrite Hp.
  repeat case_decide; done.
Qed.

Lemma taskFilter_real (w : world) (ts : list task) (st : value) :
  filter (λ task, status task = st) ts ≠ [] →
  taskFilter ts st w = (filter (λ task, status task = st) ts, w).
Proof.
  intros Hne. unfold taskFilter. case_decide as Hlen; [done|].
  destruct (filter _ ts); [done|]. simpl in Hlen. lia.
Qed.

Lemma taskFilter_placeholder (w : world) (ts : list task) (st : value) :
  filter (λ task, status task = st) ts = [] →
  taskFilter ts st w
  = ([Task (str (eval uuid w)) undefined undefined Status.empty],
     exec uuid w).
Proof.
  intros Hnil. unfold taskFilter. rewrite Hnil.
  case_decide as Hlen; [simpl in Hlen; lia|done].
Qed.

(** C7.  [taskFilter(tasks, S)] is the tasks of the list whose status is
    [S], in list order, when there is one; otherwise it is one placeholder
    with status [Empty].  It writes neither the store nor [localStorage], so
    the statistics, which are computed on the store's list, are what they
    were; and a placeholder moves none of the three counters. *)
Theorem taskFilter_is_the_column_or_a_placeholder
    (w : world) (ts : list task) (st : value) :
  let column := eval (taskFilter ts st) w in
  let w' := exec (taskFilter ts st) w in
  let real := filter (λ task, status task = st) ts in
  (real ≠ [] → column = real)
  ∧ (real = [] →
     column = [Task (str (eval uuid w)) undefined undefined Status.empty]
     ∧ counters (ts ++ column) = counters ts)
  ∧ tasks w' = tasks w
  ∧ localStorage w' = localStorage w
  ∧ statistics (tasks w') = statistics (tasks w).
Proof.
  intros column w' real. subst column w' real. unfold eval, exec.
  destruct (decide (filter (λ task, status task = st) ts = [])) as [Hnil|Hne].
  - rewrite (taskFilter_placeholder w ts st Hnil). simpl.
    split; [done|]. split; [|done]. intros _. split; [done|].
    unfold counters. rewrite fold_left_app. simpl. by apply count_empty.
  - rewrite (taskFilter_real w ts st Hne). simpl.
    split; [done|]. split; [done|]. done.
Qed.

(** C10.  When no task of the list has status [S], the column is one
    placeholder whose id is the identifier [uuid()] has just returned and
    which has neither title nor description; the next placeholder gets the
    next identifier.  When that id is fresh, dropping the placeholder on a
    list, which calls [update] with its id, leaves the store's list as it
    was. *)
Theorem dropping_the_placeholder_changes_nothing
    (w : world) (st target : value) :
  next_uuid_fresh w →
  filter (λ task, status task = st) (tasks w) = [] →
  let w1 := exec (taskFilter (tasks w) st) w in
  ∃ p,
    eval (taskFilter (tasks w) st) w = [p]
    ∧ id p = str (uuid_stream w (uuid_count w))
    ∧ title p = undefined ∧ description p = undefined
    ∧ status p = Status.empty
    ∧ eval uuid w1 = uuid_stream w (S (uuid_count w))
    ∧ tasks (exec (List_drop target (dropHandler target) (id p)) w1)
      = tasks w.
Proof.
  intros Hfresh Hnil w1. subst w1.
  assert (eval (taskFilter (tasks w) st) w
          = [Task (str (eval uuid w)) undefined undefined Status.empty]) as ->
    by (unfold eval at 1; by rewrite taskFilter_placeholder).
  assert (exec (taskFilter (tasks w) st) w = exec uuid w) as ->
    by (unfold exec at 1; by rewrite taskFilter_placeholder).
  exists (Task (str (eval uuid w)) undefined undefined Status.empty).
  cbn [fst snd id title description status].
  split; [reflexivity|]. split; [reflexivity|]. split; [reflexivity|].
  split; [reflexivity|]. split; [reflexivity|]. split; [reflexivity|].
  unfold List_drop, dropHandler. rewrite tasks_update.
  change (tasks (exec uuid w)) with (tasks w).
  apply update_absent. exact Hfresh.
Qed.

Lemma dropping_the_placeholder_changes_nothing_witness :
  ∃ p,
    eval (taskFilter [sample_task 0x61 Status.backlog] Status.done)
      (World [sample_task 0x61 Status.backlog] ∅ sample_ids 0) = [p]
    ∧ id p = str (sample_ids 0)
    ∧ tasks
        (exec (List_drop Status.inwork (dropHandler Status.inwork) (id p))
           (exec (taskFilter [sample_task 0x61 Status.backlog] Status.done)
              (World [sample_task 0x61 Status.backlog] ∅ sample_ids 0)))
      = [sample_task 0x61 Status.backlog].
Proof.
  destruct (dropping_the_placeholder_changes_nothing
              (World [sample_task 0x61 Status.backlog] ∅ sample_ids 0)
              Status.done Status.inwork)
    as (p & Hcol & Hid & _ & _ & _ & _ & Hdrop).
  - intros t Ht. apply list_elem_of_singleton in Ht as ->. discriminate.
  - reflexivity.
  - exists p. split; [exact Hcol|]. split; [exact Hid|exact Hdrop].
Defined.

(** * Persistence *)

(** C8.  The list written to [localStorage] reads back as the same list:
    the same tasks, field for field, in the same order.  So after every
    call to the store, loading the page gives the store's list. *)
Theorem persist_then_reload_gives_the_same_list (ts : list task) :
  deserialize (serialize ts) = Some ts
  ∧ (∀ w ids n, tasks (load (localStorage (exec (set ts) w)) ids n) = ts)
  ∧ (∀ w c ids n,
       tasks (load (localStorage (exec (perform c) w)) ids n)
       = tasks (exec (perform c) w)).
Proof.
  split; [apply deserialize_serialize|]. split.
  - intros w ids n. apply tasks_load, storage_set.
  - intros w c ids n. apply tasks_load. destruct c; apply storage_set.
Qed.

Section any_status.

Lemma update_list_widen (ts : list task) (X S : value) :
  update_list X S (widen <$> ts)
  = widen <$> ((λ task, if decide (id task = X)
                        then Task (id task) (title task) (description task) S
                        else task) <$> ts).
Proof.
  unfold update_list. rewrite <- !list_fmap_compose.
  apply list_fmap_ext. intros i t _. simpl. by case_decide.
Qed.

Lemma any_task_of_json_to_json t :
  any_task_of_json (any_task_to_json t) = Some (as_read t).
Proof. by destruct t as [[|i] [|ti] [|d] [[|s]| |[]| |n]]. Qed.

Lemma storable_any_task t : JSON.storable (any_task_to_json t) = true.
Proof. by destruct t as [[|i] [|ti] [|d] [[|s]| |[]| |n]]. Qed.

Lemma storable_any_storage_value ts :
  JSON.storable (any_storage_value ts) = true.
Proof.
  unfold any_storage_value. cbn [JSON.storable forallb snd].
  rewrite !andb_true_r. apply forallb_forall. intros j Hj.
  apply list_elem_of_In, list_elem_of_fmap in Hj as (t & -> & _).
  apply storable_any_task.
Qed.

(** Reading back what was written gives the list with each status as
    [JSON] keeps it. *)
Lemma deserialize_any_serialize_any ts :
  deserialize_any (serialize_any ts) = Some (as_read <$> ts).
Proof.
  unfold deserialize_any, serialize_any.
  rewrite parse_stringify by apply storable_any_storage_value.
  change (mapM any_task_of_json (any_task_to_json <$> ts)
          = Some (as_read <$> ts)).
  apply mapM_Some_2, Forall2_fmap, Forall_Forall2_diag, Forall_forall.
  intros t _. apply any_task_of_json_to_json.
Qed.

Lemma update_list_status {V : Type} (ts : list (task_of V)) (X : value)
    (S : V) t' :
  t' ∈ update_list X S ts → id_of t' = X → status_of t' = S.
Proof.
  intros Ht' Hid'. apply list_elem_of_fmap in Ht' as (t0 & -> & _).
  case_decide as Hd; [done|]. by destruct Hd.
Qed.
End any_status.




(** * Whole numbers in binary64 *)

Section magnitude.
Local Open Scope Z_scope.
Import Number.

Lemma digits2_pos_bounds p :
  2 ^ (Zpos (digits2_pos p) - 1) ≤ Zpos p < 2 ^ Zpos (digits2_pos p).
Proof.
  induction p as [p IH|p IH|]; cbn [digits2_pos]; [| |done].
  - rewrite Pos2Z.inj_succ. change (Zpos p~1) with (2 * Zpos p + 1).
    replace (Z.succ (Zpos (digits2_pos p)) - 1) with (Z.succ (Zpos (digits2_pos p) - 1)) by lia.
    rewrite !Z.pow_succ_r by lia. lia.
  - rewrite Pos2Z.inj_succ. change (Zpos p~0) with (2 * Zpos p).
    replace (Z.succ (Zpos (digits2_pos p)) - 1) with (Z.succ (Zpos (digits2_pos p) - 1)) by lia.
    rewrite !Z.pow_succ_r by lia. lia.
Qed.

Lemma digits_le_of_lt p k : Zpos p < 2 ^ k → Zpos (digits2_pos p) ≤ k.
Proof.
  intros Hlt. pose proof (digits2_pos_bounds p) as [Hlo _].
  destruct (Z.le_gt_cases (Zpos (digits2_pos p)) k) as [|Hgt]; [done|].
  assert (2 ^ k ≤ 2 ^ (Zpos (digits2_pos p) - 1)); [|lia].
  destruct (Z.le_gt_cases 0 k).
  - apply Z.pow_le_mono_r; lia.
  - rewrite (Z.pow_neg_r 2 k) by lia. apply Z.pow_nonneg. lia.
Qed.

Lemma lt_of_digits p k : 2 ^ k ≤ Zpos p → k < Zpos (digits2_pos p).
Proof.
  intros Hle. pose proof (digits2_pos_bounds p) as [_ Hhi].
  destruct (Z.le_gt_cases (Zpos (digits2_pos p)) k) as [Hge|]; [|done].
  assert (2 ^ Zpos (digits2_pos p) ≤ 2 ^ k); [|lia].
  apply Z.pow_le_mono_r; lia.
Qed.

Lemma shr_1_m r : 0 ≤ shr_m r → shr_m (shr_1 r) = shr_m r / 2.
Proof.
  intros Hm. rewrite <- Z.div2_div.
  destruct r as [[|[p|p|]|p] ? ?]; try done.
Qed.

Lemma iter_pos_shr_1 n : ∀ r,
  0 ≤ shr_m r → shr_m (SpecFloat.iter_pos shr_1 n r) = shr_m r / 2 ^ Zpos n.
Proof.
  induction n as [n IH|n IH|]; intros r Hr; cbn [SpecFloat.iter_pos].
  - assert (0 ≤ shr_m (shr_1 r)) as H1
      by (rewrite shr_1_m by done; apply Z.div_pos; lia).
    assert (0 ≤ shr_m (SpecFloat.iter_pos shr_1 n (shr_1 r))) as H2
      by (rewrite IH by done; apply Z.div_pos; [done|apply Z.pow_pos_nonneg; lia]).
    rewrite IH, IH, shr_1_m by done.
    rewrite !Z.div_div by (try apply Z.pow_pos_nonneg; lia).
    f_equal. change (Zpos n~1) with (2 * Zpos n + 1).
    rewrite Z.pow_add_r, Z.pow_mul_r, Z.pow_1_r by lia.
    change (2 ^ 2) with 4. 
    assert (2 ^ Zpos n * 2 ^ Zpos n = (2 ^ Zpos n) ^ 2) as -> by (by rewrite Z.pow_2_r).
    rewrite <- !Z.pow_mul_r by lia. rewrite (Z.mul_comm (Zpos n) 2).
    rewrite Z.pow_mul_r by lia. change (2 ^ 2) with 4. lia.
  - assert (0 ≤ shr_m (SpecFloat.iter_pos shr_1 n r)) as H2
      by (rewrite IH by done; apply Z.div_pos; [done|apply Z.pow_pos_nonneg; lia]).
    rewrite IH, IH by done.
    rewrite !Z.div_div by (try apply Z.pow_pos_nonneg; lia).
    f_equal. change (Zpos n~0) with (2 * Zpos n).
    rewrite <- Z.pow_add_r by lia. f_equal. lia.
  - by rewrite shr_1_m.
Qed.

Lemma pos_iter_xO p k : Zpos (Pos.iter xO p k) = Zpos p * 2 ^ Zpos k.
Proof.
  induction k as [|k IH] using Pos.peano_ind; [simpl; lia|].
  rewrite Pos.iter_succ, Pos2Z.inj_succ, Z.pow_succ_r by lia.
  change (Zpos (Pos.iter xO p k)~0) with (2 * Zpos (Pos.iter xO p k)). lia.
Qed.

Lemma digits_iter_xO p k :
  Zpos (digits2_pos (Pos.iter xO p k)) = Zpos (digits2_pos p) + Zpos k.
Proof.
  induction k as [|k IH] using Pos.peano_ind; [simpl; lia|].
  rewrite Pos.iter_succ. cbn [digits2_pos]. lia.
Qed.

(** A mantissa that already has the exponent of its magnitude is kept. *)
Lemma binary_round_aux_canonical s m e :
  fexp prec emax (Zpos (digits2_pos m) + e) = e → e ≤ 971 →
  binary_round_aux prec emax s (Zpos m) e loc_Exact = S754_finite s m e.
Proof.
  intros Hcan He. unfold binary_round_aux, shr_fexp.
  cbn [Zdigits2 shr_record_of_loc]. rewrite Hcan, Z.sub_diag.
  cbn [shr shr_m loc_of_shr_record round_nearest_even Zdigits2
       shr_record_of_loc].
  rewrite Hcan, Z.sub_diag. cbn [shr shr_m].
  apply Z.leb_le in He. unfold emax, prec. change (1024 - 53) with 971.
  by rewrite He.
Qed.

(** A whole number below 2^53 is a binary64 value. *)
Lemma of_nat_exact n :
  (0 < n)%nat → Z.of_nat n < 2 ^ 53 →
  ∃ m e, of_nat n = S754_finite false m e
         ∧ -53 < e ≤ 0 ∧ Zpos m = Z.of_nat n * 2 ^ (- e).
Proof.
  intros Hpos Hlt. unfold of_nat.
  destruct (Z.of_nat n) as [|p|p] eqn:Hp; [lia| |lia].
  unfold binary_normalize, binary_round.
  pose proof (digits2_pos_bounds p) as [Hlo Hhi].
  pose proof (digits_le_of_lt p 53 Hlt) as Hd.
  rewrite Z.add_0_r.
  assert (fexp prec emax (Zpos (digits2_pos p)) = Zpos (digits2_pos p) - 53)
    as -> by (unfold fexp, prec, emax, emin; lia).
  unfold shl_align. rewrite Z.sub_0_r.
  destruct (Zpos (digits2_pos p) - 53) as [|k|k] eqn:Hk; [|lia|].
  - exists p, 0. rewrite binary_round_aux_canonical; [|unfold fexp, prec, emax, emin; lia|lia].
    split; [done|]. split; [lia|]. simpl. lia.
  - exists (Pos.iter xO p k), (Zneg k).
    rewrite binary_round_aux_canonical;
      [|rewrite digits_iter_xO; unfold fexp, prec, emax, emin; lia|lia].
    split; [done|]. split; [lia|]. rewrite pos_iter_xO. done.
Qed.

Lemma of_nat_100 : of_nat 100 = S754_finite false 7036874417766400 (-46).
Proof. reflexivity. Qed.

(** [nearest] is the whole number nearest to the value times 10^f, the
    larger one of two. *)
Lemma nearest_spec f m e :
  let num := Zpos m * 2 ^ Z.max e 0 * 10 ^ Z.of_nat f in
  let den := 2 ^ Z.max (- e) 0 in
  2 * den * nearest f m e ≤ 2 * num + den < 2 * den * (nearest f m e + 1).
Proof.
  intros num den. unfold nearest. fold num den.
  assert (0 < den) by (apply Z.pow_pos_nonneg; lia).
  pose proof (Z.div_mod (2 * num + den) (2 * den) ltac:(lia)) as Hdm.
  pose proof (Z.mod_pos_bound (2 * num + den) (2 * den) ltac:(lia)). lia.
Qed.

(** The text of [toFixed(1)] ends in a point and one digit. *)
Lemma decimal_one_place n :
  ∃ whole digit, decimal 1 n = whole ++ [0x2E%N; digit] ∧ whole ≠ [].
Proof.
  unfold decimal.
  set (m0 := JSON.digits_of_uint (N.to_uint (Z.to_N n))).
  set (m := if decide (length m0 ≤ 1)%nat
            then replicate (1 + 1 - length m0) 0x30%N ++ m0 else m0).
  assert (2 ≤ length m)%nat as Hlen.
  { unfold m. case_decide; [|lia].
    rewrite length_app, length_replicate. lia. }
  cbn [decide]. rewrite decide_False by lia.
  destruct (drop (length m - 1) m) as [|digit [|? ?]] eqn:Hdrop.
  - apply (f_equal length) in Hdrop. rewrite length_drop in Hdrop.
    simpl in Hdrop. lia.
  - exists (take (length m - 1) m), digit. split; [done|].
    intros Htake. apply (f_equal length) in Htake.
    rewrite length_take in Htake. simpl in Htake. lia.
  - apply (f_equal length) in Hdrop. rewrite length_drop in Hdrop.
    simpl in Hdrop. lia.
Qed.

End magnitude.

(** * The statistics *)

(** 3 tasks done out of 2000: the quotient times 100 is the binary64 value
    next below 0.15, and [toFixed(1)] rounds that value, not 0.15. *)
Example toFixed_rounds_the_binary_value :
  percentage 1997 0 3 = S754_finite false 5404319552844595 (-55)
  ∧ Number.toFixed 1 (percentage 1997 0 3) = Some (lit "0.1")
  ∧ Number.toFixed 1 (percentage 2 0 1) = Some (lit "33.3")
  ∧ Number.toFixed 1 (percentage 0 0 5) = Some (lit "100.0").
Proof. repeat split; reflexivity. Qed.

Lemma fold_left_count ts : ∀ b i d,
  fold_left count ts (b, i, d)
  = ((b + length (filter (λ t, status t = Status.backlog) ts))%nat,
     (i + length (filter (λ t, status t = Status.inwork) ts))%nat,
     (d + length (filter (λ t, status t = Status.done) ts))%nat).
Proof.
  induction ts as [|t ts IH]; intros b i d.
  - simpl. by rewrite !Nat.add_0_r.
  - cbn [fold_left]. unfold count at 2. rewrite !filter_cons.
    destruct (decide (status t = Status.backlog)) as [Hb|Hb];
      [|destruct (decide (status t = Status.inwork)) as [Hi|Hi];
        [|destruct (decide (status t = Status.done)) as [Hd|Hd]]].
    + rewrite IH, !decide_False by (by rewrite Hb). cbn [length].
      by rewrite Nat.add_succ_r.
    + rewrite IH, decide_False by (by rewrite Hi). cbn [length].
      by rewrite Nat.add_succ_r.
    + rewrite IH. cbn [length]. by rewrite Nat.add_succ_r.
    + by rewrite IH.
Qed.

Lemma counters_filter ts :
  counters ts
  = (length (filter (λ t, status t = Status.backlog) ts),
     length (filter (λ t, status t = Status.inwork) ts),
     length (filter (λ t, status t = Status.done) ts)).
Proof. unfold counters. by rewrite fold_left_count. Qed.


Lemma counted_le_length ts :
  (length (filter (λ t, status t = Status.backlog) ts)
   + length (filter (λ t, status t = Status.done) ts)
   + length (filter (λ t, status t = Status.inwork) ts)
   ≤ length ts)%nat.
Proof.
  induction ts as [|t ts IH]; [done|]. rewrite !filter_cons.
  destruct (decide (status t = Status.backlog)) as [Hb|Hb];
    [rewrite !decide_False by (by rewrite Hb)|
     destruct (decide (status t = Status.done)) as [Hd|Hd];
       [rewrite decide_False by (by rewrite Hd)|
        destruct (decide (status t = Status.inwork))]];
    cbn [length]; lia.
Qed.

(** * How the operations of the store compose *)

Section store_composition.
Implicit Types (w : world) (ts : list task) (t : task) (X Y S T D : value).

Lemma world_eq w w' :
  tasks w = tasks w' → localStorage w = localStorage w' →
  uuid_stream w = uuid_stream w' → uuid_count w = uuid_count w' → w = w'.
Proof. destruct w, w'. simpl. by intros -> -> -> ->. Qed.

Lemma exec_set_set w ts ts' : exec (set ts') (exec (set ts) w) = exec (set ts') w.
Proof. apply world_eq; try done. simpl. apply insert_insert_eq. Qed.

Lemma exec_set_ext w ts ts' : ts = ts' → exec (set ts) w = exec (set ts') w.
Proof. by intros ->. Qed.

Lemma exec_update w X S :
  exec (update X S) w
  = exec (set ((λ task, if decide (id task = X)
                        then Task (id task) (title task) (description task) S
                        else task) <$> tasks w)) w.
Proof. reflexivity. Qed.

Lemma exec_remove w X :
  exec (remove X) w = exec (set (filter (λ task, X ≠ id task) (tasks w))) w.
Proof. reflexivity. Qed.


(** [remove] takes out every task with the given id, also when several
    tasks share it; the tasks left are those with another id, and a second
    [remove] of the same id changes nothing at all. *)
Theorem remove_leaves_no_task_with_the_id w X :
  (∀ t, t ∈ tasks (exec (remove X) w) ↔ t ∈ tasks w ∧ id t ≠ X)
  ∧ (length (tasks (exec (remove X) w))
     + length (filter (λ task, id task = X) (tasks w))
     = length (tasks w))%nat
  ∧ exec (remove X) (exec (remove X) w) = exec (remove X) w.
Proof.
  split; [|split].
  - intros t. rewrite tasks_remove, list_elem_of_filter.
    split; (intros [? ?]; split; [done||congruence..]).
  - rewrite tasks_remove. induction (tasks w) as [|t ts IH]; [done|].
    rewrite !filter_cons. destruct (decide (X = id t)) as [->|Hne].
    + rewrite decide_False by (intros H; by apply H).
      rewrite decide_True by done. simpl. lia.
    + rewrite decide_True by done.
      rewrite decide_False by congruence. simpl. lia.
  - rewrite (exec_remove (exec (remove X) w)), tasks_remove.
    rewrite (exec_remove w), exec_set_set. apply exec_set_ext.
    rewrite list_filter_filter. apply list_filter_iff. intros t. tauto.
Qed.


(** Creating a task and removing it again gives back the list as it was,
    when the new id was fresh. *)
Theorem create_then_remove_restores_the_list w T D :
  next_uuid_fresh w →
  tasks (exec (remove (str (eval uuid w))) (exec (create T D) w)) = tasks w.
Proof.
  intros Hfresh. rewrite tasks_remove, tasks_create.
  rewrite filter_cons_False by (intros H; by apply H).
  apply remove_absent. exact Hfresh.
Qed.

Lemma create_then_remove_restores_the_list_witness :
  tasks (exec (remove (str (sample_ids 0)))
           (exec (create (str (lit "T")) (str (lit "D")))
              (World [sample_task 0x61 Status.done] ∅ sample_ids 0)))
  = [sample_task 0x61 Status.done].
Proof.
  apply (create_then_remove_restores_the_list
           (World [sample_task 0x61 Status.done] ∅ sample_ids 0)).
  intros t Ht. apply list_elem_of_singleton in Ht as ->. discriminate.
Defined.
End store_composition.

(** * Where the tasks of the list come from *)

Section provenance.
Implicit Types (w : world) (ts : list task) (t : task) (X S T D : value).

Lemma status_from_cons c calls s s0 :
  status_from calls s s0 → status_from (c :: calls) s s0.
Proof. intros [?|[X ?]]; [by left|right]. exists X. by right. Qed.

Lemma run_cons c calls w :
  exec (run (c :: calls)) w = exec (run calls) (exec (perform c) w).
Proof. reflexivity. Qed.

Lemma run_provenance calls : ∀ w t,
  t ∈ tasks (exec (run calls) w) →
  (∃ t0, t0 ∈ tasks w ∧ id t = id t0 ∧ title t = title t0
         ∧ description t = description t0
         ∧ status_from calls (status t) (status t0))
  ∨ (∃ T D, Create T D ∈ calls ∧ title t = T ∧ description t = D
            ∧ status_from calls (status t) Status.backlog).
Proof.
  induction calls as [|c calls IH]; intros w t Ht.
  { left. exists t. repeat split; try done. by left. }
  rewrite run_cons in Ht.
  destruct (IH _ _ Ht) as [(t1 & Ht1 & Hid & Hti & Hde & Hst)
                          |(T & D & Hin & Hti & Hde & Hst)].
  - destruct c as [T D|X S|X]; cbn [perform] in Ht1.
    + rewrite tasks_create in Ht1. apply elem_of_cons in Ht1 as [->|Ht1].
      * right. exists T, D. split; [left|].
        split; [done|]. split; [done|]. by apply status_from_cons.
      * left. exists t1. repeat split; try done. by apply status_from_cons.
    + rewrite tasks_update in Ht1.
      apply list_elem_of_fmap in Ht1 as (t0 & -> & Ht0).
      left. exists t0. split; [done|].
      case_decide as Hd; simpl in *; repeat split; try done.
      * destruct Hst as [->|[Y HY]]; right; [exists X; left|exists Y; by right].
      * by apply status_from_cons.
    + rewrite tasks_remove in Ht1. apply list_elem_of_filter in Ht1 as [_ Ht1].
      left. exists t1. repeat split; try done. by apply status_from_cons.
  - right. exists T, D. split; [by right|].
    split; [done|]. split; [done|]. by apply status_from_cons.
Qed.

Lemma run_counts calls : ∀ w,
  uuid_count (exec (run calls) w) = (uuid_count w + creates calls)%nat
  ∧ (length (tasks (exec (run calls) w)) ≤ length (tasks w) + creates calls)%nat.
Proof.
  induction calls as [|c calls IH]; intros w.
  { change (exec (run []) w) with w. unfold creates. rewrite filter_nil.
    simpl. lia. }
  rewrite run_cons. destruct (IH (exec (perform c) w)) as [-> Hlen].
  unfold creates in *. rewrite filter_cons.
  destruct c as [T D|X S|X]; cbn [perform is_create] in *.
  - rewrite decide_True by done. rewrite tasks_create in Hlen.
    simpl in *. lia.
  - rewrite decide_False by done. rewrite tasks_update, length_fmap in Hlen.
    simpl in *. lia.
  - rewrite decide_False by done. rewrite tasks_remove in Hlen.
    pose proof (length_filter (λ task, X ≠ id task) (tasks w)).
    simpl in *. lia.
Qed.

(** Starting from the empty list, every task of the list has the title and
    the description that some [create] of the sequence was given, and its
    status is [Backlog] or the status that some [update] of the sequence
    was given; [uuid()] has been called once for each [create] and never
    otherwise, and the list has no more tasks than there were [create]s. *)
Theorem every_task_comes_from_a_create w calls :
  tasks w = [] →
  (∀ t, t ∈ tasks (exec (run calls) w) →
     ∃ T D, Create T D ∈ calls ∧ title t = T ∧ description t = D
            ∧ (status t = Status.backlog ∨ ∃ X, Update X (status t) ∈ calls))
  ∧ uuid_count (exec (run calls) w) = (uuid_count w + creates calls)%nat
  ∧ (length (tasks (exec (run calls) w)) ≤ creates calls)%nat.
Proof.
  intros Hempty. split; [|split].
  - intros t Ht. destruct (run_provenance calls w t Ht)
      as [(t0 & Ht0 & _)|(T & D & Hin & Hti & Hde & Hst)].
    + rewrite Hempty in Ht0. by apply elem_of_nil in Ht0.
    + by exists T, D.
  - apply run_counts.
  - destruct (run_counts calls w) as [_ Hlen]. rewrite Hempty in Hlen.
    simpl in Hlen. lia.
Qed.

Lemma every_task_comes_from_a_create_witness :
  uuid_count
    (exec (run [Create (str (lit "T")) (str (lit "D"));
                Update (str (sample_ids 0)) Status.done;
                Remove (str (sample_ids 0));
                Create (str (lit "U")) undefined])
       (World [] ∅ sample_ids 0)) = 2%nat.
Proof.
  destruct (every_task_comes_from_a_create (World [] ∅ sample_ids 0)
              [Create (str (lit "T")) (str (lit "D"));
               Update (str (sample_ids 0)) Status.done;
               Remove (str (sample_ids 0));
               Create (str (lit "U")) undefined]) as (_ & Hcount & _).
  - reflexivity.
  - exact Hcount.
Defined.
End provenance.

(** * The page *)

Section page.
Implicit Types (w : world) (ts : list task) (t : task) (S : value) (f : form).

Lemma real_status_neq_empty S : real_status S → S ≠ Status.empty ∧ S ≠ undefined.
Proof. intros [-> | [-> | ->]]; by split. Qed.

Lemma taskFilterList_eq ts S w :
  taskFilterList ts S w
  = (card_of <$> eval (taskFilter ts S) w, exec (taskFilter ts S) w).
Proof. reflexivity. Qed.

Lemma taskFilter_world ts S w :
  tasks (exec (taskFilter ts S) w) = tasks w
  ∧ localStorage (exec (taskFilter ts S) w) = localStorage w
  ∧ uuid_stream (exec (taskFilter ts S) w) = uuid_stream w
  ∧ (uuid_count w ≤ uuid_count (exec (taskFilter ts S) w))%nat.
Proof.
  unfold exec.
  destruct (decide (filter (λ task, status task = S) ts = [])) as [Hnil|Hne].
  - rewrite taskFilter_placeholder by done. simpl. repeat split; lia.
  - rewrite taskFilter_real by done. simpl. repeat split; lia.
Qed.

(** The card of a task with a real status: the four buttons act on the
    task's own id. *)
Lemma card_of_real t :
  real_status (status t) →
  card_of t = task_card t.
Proof.
  intros Hreal. unfold card_of, task_card, Card.
  by destruct Hreal as [-> | [-> | ->]].
Qed.

Lemma card_of_placeholder u :
  card_of (Task (str u) undefined undefined Status.empty) = empty_card u.
Proof. reflexivity. Qed.

Lemma taskFilterList_items ts S w :
  real_status S →
  let col := filter (λ task, status task = S) ts in
  (col = [] → eval (taskFilterList ts S) w = [empty_card (eval uuid w)])
  ∧ (col ≠ [] → eval (taskFilterList ts S) w = task_card <$> col).
Proof.
  intros Hreal col. unfold eval at 1 3. rewrite taskFilterList_eq. cbn [fst].
  split; intros Hcol.
  - unfold eval. by rewrite taskFilter_placeholder.
  - unfold eval. rewrite taskFilter_real by done. cbn [fst].
    apply list_fmap_ext. intros i t Ht. apply card_of_real.
    apply list_elem_of_lookup_2, list_elem_of_filter in Ht as [-> _]. done.
Qed.

Lemma taskFilterList_world ts S w :
  tasks (exec (taskFilterList ts S) w) = tasks w
  ∧ localStorage (exec (taskFilterList ts S) w) = localStorage w
  ∧ uuid_stream (exec (taskFilterList ts S) w) = uuid_stream w
  ∧ (uuid_count w ≤ uuid_count (exec (taskFilterList ts S) w))%nat.
Proof. apply taskFilter_world. Qed.

(** The three worlds in which [App] renders its three lists. *)
Lemma App_eq f w :
  let ts := tasks w in
  let w1 := exec (taskFilterList ts Status.backlog) w in
  let w2 := exec (taskFilterList ts Status.inwork) w1 in
  let w3 := exec (taskFilterList ts Status.done) w2 in
  App f w
  = (Page (createHandler f) (statistics ts)
       [List Status.backlog (dropHandler Status.backlog)
          (eval (taskFilterList ts Status.backlog) w);
        List Status.inwork (dropHandler Status.inwork)
          (eval (taskFilterList ts Status.inwork) w1);
        List Status.done (dropHandler Status.done)
          (eval (taskFilterList ts Status.done) w2)], w3).
Proof. reflexivity. Qed.

Lemma App_world f w :
  tasks (exec (App f) w) = tasks w
  ∧ localStorage (exec (App f) w) = localStorage w
  ∧ uuid_stream (exec (App f) w) = uuid_stream w
  ∧ (uuid_count w ≤ uuid_count (exec (App f) w))%nat.
Proof.
  unfold exec at 1 2 3 4. rewrite App_eq. cbn [snd].
  pose proof (taskFilterList_world (tasks w) Status.backlog w) as (T1 & L1 & U1 & C1).
  pose proof (taskFilterList_world (tasks w) Status.inwork
                (exec (taskFilterList (tasks w) Status.backlog) w))
    as (T2 & L2 & U2 & C2).
  pose proof (taskFilterList_world (tasks w) Status.done
                (exec (taskFilterList (tasks w) Status.inwork)
                   (exec (taskFilterList (tasks w) Status.backlog) w)))
    as (T3 & L3 & U3 & C3).
  rewrite T3, T2, T1, L3, L2, L1, U3, U2, U1. repeat split; lia.
Qed.

Lemma App_lists f w c :
  c ∈ lists (eval (App f) w) →
  real_status (listId c) ∧ onDrop c = dropHandler (listId c)
  ∧ let col := filter (λ task, status task = listId c) (tasks w) in
    (col = [] → ∃ u, items c = [empty_card u])
    ∧ (col ≠ [] → items c = task_card <$> col).
Proof.
  unfold eval at 1. rewrite App_eq. cbn [fst lists].
  intros Hc. repeat (apply elem_of_cons in Hc as [->|Hc]);
    [| | |by apply elem_of_nil in Hc]; cbn [listId onDrop items].
  - split; [by left|]. split; [done|].
    destruct (taskFilterList_items (tasks w) Status.backlog w) as [H0 H1];
      [by left|].
    split; [|done]. intros Hcol. eexists. by apply H0.
  - split; [by right; left|]. split; [done|].
    destruct (taskFilterList_items (tasks w) Status.inwork
                (exec (taskFilterList (tasks w) Status.backlog) w)) as [H0 H1];
      [by right; left|].
    split; [|done]. intros Hcol. eexists. by apply H0.
  - split; [by right; right|]. split; [done|].
    destruct (taskFilterList_items (tasks w) Status.done
                (exec (taskFilterList (tasks w) Status.inwork)
                   (exec (taskFilterList (tasks w) Status.backlog) w)))
      as [H0 H1]; [by right; right|].
    split; [|done]. intros Hcol. eexists. by apply H0.
Qed.
End page.

Section page_properties.
Implicit Types (w : world) (ts : list task) (t : task) (S : value) (f : form).



Lemma item_at_elem p l i it :
  item_at p l i = Some it → ∃ c, c ∈ lists p ∧ it ∈ items c.
Proof.
  unfold item_at. destruct (lists p !! l) as [c|] eqn:Hl; [|done].
  intros Hi. exists c. split; by eapply list_elem_of_lookup_2.
Qed.

(** What a click on a button of the page runs. *)
Lemma button_at_call f w l i b btn :
  button_at (eval (App f) w) l i b = Some btn →
  ∃ c, real_call c ∧ onClick btn = perform c.
Proof.
  unfold button_at. destruct (item_at _ l i) as [it|] eqn:Hit; [|done].
  apply item_at_elem in Hit as (c & Hc & Hin).
  destruct (App_lists f w c Hc) as (_ & _ & Hempty & Hcards).
  destruct (decide (filter (λ task, status task = listId c) (tasks w) = []))
    as [Hnil|Hne].
  - destruct (Hempty Hnil) as [u Hu]. rewrite Hu in Hin.
    apply list_elem_of_singleton in Hin as ->. done.
  - rewrite (Hcards Hne) in Hin.
    apply list_elem_of_fmap in Hin as (t & -> & _). cbn [children task_card buttons].
    intros Hb. apply list_elem_of_lookup_2 in Hb.
    repeat (apply elem_of_cons in Hb as [->|Hb]);
      [| | | |by apply elem_of_nil in Hb].
    + exists (Update (id t) Status.backlog). split; [by left|done].
    + exists (Update (id t) Status.inwork). split; [by right; left|done].
    + exists (Update (id t) Status.done). split; [by right; right|done].
    + by exists (Remove (id t)).
Qed.

Lemma drawn_mono w w' :
  tasks w' = tasks w → uuid_stream w' = uuid_stream w →
  (uuid_count w ≤ uuid_count w')%nat → drawn w → drawn w'.
Proof.
  intros Ht Hs Hc Hdr t Hin. rewrite Ht in Hin.
  destruct (Hdr t Hin) as (k & Hk & Hid). exists k. rewrite Hs. split; [lia|done].
Qed.

Lemma step_call e f w :
  exec (step e f) w = exec (App f) w
  ∨ ∃ c, real_call c ∧ exec (step e f) w = exec (perform c) (exec (App f) w).
Proof.
  destruct e as [text|text| |l i b|l i l'].
  - by left.
  - by left.
  - right. by exists (Create (str (taskTitle f)) (str (taskDescription f))).
  - change (exec (step (ClickButton l i b) f) w)
      with (exec (handle (ClickButton l i b) (eval (App f) w) f) (exec (App f) w)).
    cbn [handle]. destruct (button_at _ l i b) as [btn|] eqn:Hb; [|by left].
    apply button_at_call in Hb as (c & Hc & Hbtn). right. exists c.
    split; [done|]. change (exec (_ ← onClick btn; mret f) ?v)
      with (exec (onClick btn) v). by rewrite Hbtn.
  - change (exec (step (DragDrop l i l') f) w)
      with (exec (handle (DragDrop l i l') (eval (App f) w) f) (exec (App f) w)).
    cbn [handle]. destruct (item_at _ l i) as [dragged|]; [|by left].
    destruct (lists _ !! l') as [target|] eqn:Ht; [|by left].
    apply list_elem_of_lookup_2 in Ht.
    destruct (App_lists f w target Ht) as (Hreal & Hdrop & _).
    right. exists (Update (item_id dragged) (listId target)). split; [done|].
    change (exec (_ ← drop_on target dragged; mret f) ?v)
      with (exec (drop_on target dragged) v).
    unfold drop_on, List_drop. by rewrite Hdrop.
Qed.

Lemma step_well_formed e f w :
  Inj (=) (=) (uuid_stream w) → well_formed (tasks w) → drawn w →
  well_formed (tasks (exec (step e f) w)) ∧ drawn (exec (step e f) w)
  ∧ uuid_stream (exec (step e f) w) = uuid_stream w.
Proof.
  intros Hinj Hwf Hdr.
  destruct (App_world f w) as (HT & _ & HS & HC).
  assert (drawn (exec (App f) w)) as Hdr' by (by apply (drawn_mono w)).
  destruct (step_call e f w) as [->|(c & Hc & ->)].
  - by rewrite HT.
  - rewrite perform_stream, HS.
    destruct (perform_well_formed (exec (App f) w) c) as [H1 H2];
      [by rewrite HS|done|by rewrite HT|done|done].
Qed.

Lemma session_cons e es f w :
  exec (session (e :: es) f) w
  = exec (session es (eval (step e f) w)) (exec (step e f) w).
Proof. reflexivity. Qed.

Lemma session_well_formed es : ∀ f w,
  Inj (=) (=) (uuid_stream w) → well_formed (tasks w) → drawn w →
  well_formed (tasks (exec (session es f) w)).
Proof.
  induction es as [|e es IH]; intros f w Hinj Hwf Hdr; [done|].
  rewrite session_cons.
  destruct (step_well_formed e f w Hinj Hwf Hdr) as (Hwf' & Hdr' & Hs).
  apply IH; [by rewrite Hs|done..].
Qed.

(** Whatever the user does on the page (typing, creating, clicking the
    buttons of the cards, dragging any card, the empty one too, onto any
    list), starting from the empty list and with identifiers that do not
    repeat, the list keeps distinct ids and real statuses. *)
Theorem the_page_keeps_the_list_well_formed es f w :
  tasks w = [] → Inj (=) (=) (uuid_stream w) →
  well_formed (tasks (exec (session es f) w)).
Proof.
  intros Hempty Hinj. apply session_well_formed; [done| |].
  - rewrite Hempty. split; [apply NoDup_nil_2|apply Forall_nil_2].
  - intros t Ht. rewrite Hempty in Ht. by apply elem_of_nil in Ht.
Qed.

Lemma the_page_keeps_the_list_well_formed_witness :
  well_formed
    (tasks
       (exec (session [TypeTitle (lit "T"); ClickCreate; DragDrop 1 0 2;
                       DragDrop 0 0 1; ClickButton 1 0 2]
                (Form [] []))
          (World [] ∅ sample_ids 0))).
Proof.
  apply the_page_keeps_the_list_well_formed.
  - reflexivity.
  - exact sample_ids_inj.
Defined.
End page_properties.

Section columns.
Implicit Types (w : world) (ts : list task) (t : task) (S : value) (f : form).

Lemma task_cards_of_tasks l o col :
  task_cards (List l o (task_card <$> col)) = task_card <$> col.
Proof.
  unfold task_cards. cbn [items]. induction col as [|t col IH]; [done|].
  rewrite fmap_cons, filter_cons_True by done. by rewrite IH.
Qed.

Lemma task_cards_of_empty l o u : task_cards (List l o [empty_card u]) = [].
Proof. reflexivity. Qed.

Lemma task_cards_column f w c :
  c ∈ lists (eval (App f) w) →
  task_cards c
  = task_card <$> filter (λ task, status task = listId c) (tasks w).
Proof.
  intros Hc. destruct (App_lists f w c Hc) as (_ & _ & Hempty & Hcards).
  destruct c as [l o its]. cbn [listId items] in *.
  destruct (decide (filter (λ task, status task = l) (tasks w) = []))
    as [Hnil|Hne].
  - destruct (Hempty Hnil) as [u ->]. by rewrite Hnil.
  - rewrite (Hcards Hne). apply task_cards_of_tasks.
Qed.

Lemma App_three_lists f w :
  ∃ l0 l1 l2,
    lists (eval (App f) w) = [l0; l1; l2]
    ∧ listId l0 = Status.backlog ∧ listId l1 = Status.inwork
    ∧ listId l2 = Status.done.
Proof. unfold eval. rewrite App_eq. cbn [fst lists]. by eexists _, _, _. Qed.

(** The numbers of the page agree with its cards: the statistics are those
    of the store's list, and the three counters are the numbers of task
    cards in the three lists (an empty card is not counted); each list
    shows as many items as its counter says, or one when that is zero. *)
Theorem the_counters_are_the_cards_of_the_lists f w :
  ∃ l0 l1 l2 percent,
    lists (eval (App f) w) = [l0; l1; l2]
    ∧ stats (eval (App f) w) = statistics (tasks w)
    ∧ stats (eval (App f) w)
      = (length (task_cards l0), length (task_cards l1),
         length (task_cards l2), percent)
    ∧ length (items l0) = max 1 (length (task_cards l0))
    ∧ length (items l1) = max 1 (length (task_cards l1))
    ∧ length (items l2) = max 1 (length (task_cards l2)).
Proof.
  destruct (App_three_lists f w) as (l0 & l1 & l2 & Hl & H0 & H1 & H2).
  assert (∀ c, c ∈ [l0; l1; l2] →
               length (items c) = max 1 (length (task_cards c))) as Hlen.
  { intros c Hc. rewrite <- Hl in Hc.
    rewrite (task_cards_column f w c Hc).
    destruct (App_lists f w c Hc) as (_ & _ & Hempty & Hcards).
    destruct (decide (filter (λ task, status task = listId c) (tasks w) = []))
      as [Hnil|Hne].
    - destruct (Hempty Hnil) as [u ->]. by rewrite Hnil.
    - rewrite (Hcards Hne), length_fmap.
      destruct (filter _ (tasks w)); [done|]. simpl. lia. }
  exists l0, l1, l2, (snd (statistics (tasks w))).
  split; [done|]. split; [done|]. split.
  - rewrite !(task_cards_column f w) by (rewrite Hl; set_solver).
    rewrite H0, H1, H2, !length_fmap.
    change (stats (eval (App f) w)) with (statistics (tasks w)).
    unfold statistics. rewrite counters_filter. reflexivity.
  - repeat split; apply Hlen; set_solver.
Qed.

Lemma real_filters_permutation ts :
  filter (λ t, status t = Status.backlog) ts
  ++ filter (λ t, status t = Status.inwork) ts
  ++ filter (λ t, status t = Status.done) ts
  ≡ₚ filter (λ t, real_status (status t)) ts.
Proof.
  induction ts as [|t ts IH]; [done|]. rewrite !filter_cons.
  destruct (decide (status t = Status.backlog)) as [Hb|Hb];
    [|destruct (decide (status t = Status.inwork)) as [Hi|Hi];
      [|destruct (decide (status t = Status.done)) as [Hd|Hd]]].
  - rewrite !decide_False by (by rewrite Hb).
    rewrite decide_True by (by left). simpl. by rewrite IH.
  - rewrite decide_False by (by rewrite Hi).
    rewrite decide_True by (by right; left).
    rewrite <- IH. cbn [app]. by rewrite <- Permutation_middle.
  - rewrite decide_True by (by right; right). rewrite <- IH.
    rewrite (app_assoc _ _ (_ :: _)), <- Permutation_middle.
    by rewrite <- app_assoc.
  - rewrite decide_False by (intros [|[|]]; done). done.
Qed.

(** Every task with a real status is on the page exactly once: the task
    cards of the three lists, taken together, are the cards of the tasks
    of the store that have a real status, up to their order.  A task with
    any other status is on no list. *)
Theorem every_real_task_is_on_one_list f w :
  concat (task_cards <$> lists (eval (App f) w))
  ≡ₚ task_card <$> filter (λ t, real_status (status t)) (tasks w).
Proof.
  destruct (App_three_lists f w) as (l0 & l1 & l2 & Hl & H0 & H1 & H2).
  assert (∀ c, c ∈ [l0; l1; l2] →
               task_cards c
               = task_card <$> filter (λ task, status task = listId c) (tasks w))
    as Hcards by (intros c Hc; apply (task_cards_column f w); by rewrite Hl).
  rewrite Hl. cbn [fmap list_fmap concat]. rewrite app_nil_r.
  rewrite !Hcards by set_solver. rewrite H0, H1, H2, <- !fmap_app.
  apply fmap_Permutation, real_filters_permutation.
Qed.
End columns.

Section gestures.
Implicit Types (w : world) (ts : list task) (t : task) (S : value) (f : form).

(** [getColorFromStatus] gives a colour to the three real statuses, a
    different one to each, and none to any other status. *)
Theorem only_real_statuses_have_a_colour S :
  (real_status S ↔ getColorFromStatus S ≠ undefined)
  ∧ ∀ S', real_status S → getColorFromStatus S = getColorFromStatus S' →
          S = S'.
Proof.
  split; [split|].
  - by intros [-> | [-> | ->]].
  - unfold getColorFromStatus, real_status. repeat case_decide; tauto.
  - intros S' [-> | [-> | ->]]; unfold getColorFromStatus at 2;
      repeat case_decide; (done || by intros ?).
Qed.

(** A badge on the page always has a colour class: it carries the status
    of its list, which is a real status, and its class ends in the colour
    of that status, never in ["undefined"]. *)
Theorem a_badge_on_the_page_has_a_colour f w c it class st :
  c ∈ lists (eval (App f) w) → it ∈ items c →
  badge (children it) = Some (class, st) →
  st = listId c ∧ real_status st
  ∧ ∃ colour, getColorFromStatus st = str colour
              ∧ class = lit "badge badge-accent " ++ colour.
Proof.
  intros Hc Hit Hbadge.
  destruct (App_lists f w c Hc) as (Hreal & _ & Hempty & Hcards).
  destruct (decide (filter (λ task, status task = listId c) (tasks w) = []))
    as [Hnil|Hne].
  - destruct (Hempty Hnil) as [u Hu]. rewrite Hu in Hit.
    apply list_elem_of_singleton in Hit as ->. done.
  - rewrite (Hcards Hne) in Hit.
    apply list_elem_of_fmap in Hit as (t & -> & Ht).
    apply list_elem_of_filter in Ht as [Hst _].
    cbn [children task_card badge] in Hbadge.
    injection Hbadge as <- <-. rewrite Hst. split; [done|]. split; [done|].
    destruct Hreal as [-> | [-> | ->]]; by eexists.
Qed.

Lemma a_badge_on_the_page_has_a_colour_witness :
  ∃ colour,
    getColorFromStatus Status.inwork = str colour
    ∧ lit "badge badge-accent badge-info" = lit "badge badge-accent " ++ colour.
Proof.
  destruct (a_badge_on_the_page_has_a_colour (Form [] [])
              (World [sample_task 0x62 Status.inwork] ∅ sample_ids 0)
              (List Status.inwork (dropHandler Status.inwork)
                 [task_card (sample_task 0x62 Status.inwork)])
              (task_card (sample_task 0x62 Status.inwork))
              (lit "badge badge-accent badge-info") Status.inwork)
    as (_ & _ & colour & Hcolour & Hclass).
  - right. left.
  - left.
  - reflexivity.
  - by exists colour.
Defined.

Lemma lists_lookup f w l S :
  [Status.backlog; Status.inwork; Status.done] !! l = Some S →
  ∃ c, lists (eval (App f) w) !! l = Some c ∧ listId c = S
       ∧ c ∈ lists (eval (App f) w).
Proof.
  destruct (App_three_lists f w) as (l0 & l1 & l2 & Hl & H0 & H1 & H2).
  rewrite Hl. destruct l as [|[|[|l]]]; intros [= <-].
  - exists l0. repeat split; [done|left].
  - exists l1. repeat split; [done|right; left].
  - exists l2. repeat split; [done|right; right; left].
Qed.

Lemma item_at_task f w l i S t :
  [Status.backlog; Status.inwork; Status.done] !! l = Some S →
  filter (λ task, status task = S) (tasks w) !! i = Some t →
  item_at (eval (App f) w) l i = Some (task_card t).
Proof.
  intros Hl Hi. destruct (lists_lookup f w l S Hl) as (c & Hc & Hid & Hin).
  unfold item_at. rewrite Hc.
  destruct (App_lists f w c Hin) as (_ & _ & _ & Hcards).
  rewrite Hid in Hcards. rewrite Hcards by (by intros Hnil; rewrite Hnil in Hi).
  by rewrite list_lookup_fmap, Hi.
Qed.

Lemma exec_handle e f w :
  exec (step e f) w = exec (handle e (eval (App f) w) f) (exec (App f) w)
  ∧ eval (step e f) w = eval (handle e (eval (App f) w) f) (exec (App f) w).
Proof. done. Qed.

(** Dragging the card of a task from its list and dropping it on a list
    (the same or another) is [update] of that task's id with the status of
    the target list: afterwards the task, with its title and description,
    is on the target list, and the form is as it was. *)
Theorem dropping_a_card_updates_its_task f w l i l' S S' t :
  [Status.backlog; Status.inwork; Status.done] !! l = Some S →
  [Status.backlog; Status.inwork; Status.done] !! l' = Some S' →
  filter (λ task, status task = S) (tasks w) !! i = Some t →
  let w' := exec (step (DragDrop l i l') f) w in
  tasks w' = tasks (exec (update (id t) S') w)
  ∧ eval (step (DragDrop l i l') f) w = f
  ∧ Task (id t) (title t) (description t) S'
    ∈ filter (λ task, status task = S') (tasks w').
Proof.
  intros Hl Hl' Hi w'. subst w'.
  destruct (exec_handle (DragDrop l i l') f w) as [-> ->]. cbn [handle].
  rewrite (item_at_task f w l i S t Hl Hi).
  destruct (lists_lookup f w l' S' Hl') as (c & -> & Hid & Hin).
  destruct (App_lists f w c Hin) as (_ & Hdrop & _).
  destruct (App_world f w) as (HT & _).
  assert (tasks (exec (_ ← drop_on c (task_card t); mret f) (exec (App f) w))
          = tasks (exec (update (id t) S') w)) as Htasks.
  { change (exec (_ ← drop_on c (task_card t); mret f) ?v)
      with (exec (drop_on c (task_card t)) v).
    unfold drop_on, List_drop. rewrite Hdrop, Hid. cbn [item_id task_card].
    unfold dropHandler. by rewrite !tasks_update, HT. }
  split; [done|]. split; [done|]. rewrite Htasks, tasks_update.
  apply list_elem_of_filter. split; [done|].
  apply list_elem_of_fmap. exists t. rewrite decide_True by done.
  split; [done|].
  by apply list_elem_of_lookup_2, list_elem_of_filter in Hi as [_ ?].
Qed.

Lemma dropping_a_card_updates_its_task_witness :
  tasks
    (exec (step (DragDrop 0 0 2) (Form [] []))
       (World [sample_task 0x61 Status.backlog] ∅ sample_ids 0))
  = [sample_task 0x61 Status.done].
Proof.
  destruct (dropping_a_card_updates_its_task (Form [] [])
              (World [sample_task 0x61 Status.backlog] ∅ sample_ids 0)
              0 0 2 Status.backlog Status.done
              (sample_task 0x61 Status.backlog)) as (Htasks & _);
    [reflexivity..|].
  rewrite Htasks. reflexivity.
Defined.

(** A click on a button of the card of a task runs, on that task's own id,
    [update] to [Backlog], [InProgress] or [Done], or [remove], by the
    place of the button in the menu. *)
Theorem a_button_acts_on_its_own_task f w l i b S t c :
  [Status.backlog; Status.inwork; Status.done] !! l = Some S →
  filter (λ task, status task = S) (tasks w) !! i = Some t →
  [Update (id t) Status.backlog; Update (id t) Status.inwork;
   Update (id t) Status.done; Remove (id t)] !! b = Some c →
  tasks (exec (step (ClickButton l i b) f) w) = tasks (exec (perform c) w)
  ∧ eval (step (ClickButton l i b) f) w = f.
Proof.
  intros Hl Hi Hb.
  destruct (exec_handle (ClickButton l i b) f w) as [-> ->]. cbn [handle].
  unfold button_at. rewrite (item_at_task f w l i S t Hl Hi).
  destruct (App_world f w) as (HT & _).
  cbn [children task_card buttons].
  destruct b as [|[|[|[|b]]]]; cbn [lookup list_lookup] in Hb;
    [| | | |discriminate Hb]; injection Hb as <-; cbn [lookup list_lookup];
    (split; [|done]);
    change (exec (_ ← ?m; mret f) ?v) with (exec m v); cbn [onClick perform].
  - by rewrite !tasks_update, HT.
  - by rewrite !tasks_update, HT.
  - by rewrite !tasks_update, HT.
  - by rewrite !tasks_remove, HT.
Qed.

Lemma a_button_acts_on_its_own_task_witness :
  tasks
    (exec (step (ClickButton 0 1 3) (Form [] []))
       (World [sample_task 0x61 Status.backlog;
               sample_task 0x62 Status.backlog] ∅ sample_ids 0))
  = [sample_task 0x61 Status.backlog].
Proof.
  destruct (a_button_acts_on_its_own_task (Form [] [])
              (World [sample_task 0x61 Status.backlog;
                      sample_task 0x62 Status.backlog] ∅ sample_ids 0)
              0 1 3 Status.backlog (sample_task 0x62 Status.backlog)
              (Remove (str [0x62]))) as (Htasks & _);
    [reflexivity..|].
  rewrite Htasks. reflexivity.
Defined.

(** Typing a title and a description and clicking the create button adds,
    at the front of the list and so at the top of the backlog list, a
    [Backlog] task with the two typed texts. *)
Theorem typing_then_create_adds_the_task f w a b :
  let es := [TypeTitle a; TypeDescription b; ClickCreate] in
  let w' := exec (session es f) w in
  ∃ u,
    tasks w' = Task (str u) (str a) (str b) Status.backlog :: tasks w
    ∧ filter (λ task, status task = Status.backlog) (tasks w') !! 0%nat
      = Some (Task (str u) (str a) (str b) Status.backlog).
Proof.
  intros es w'. subst es w'.
  set (f1 := Form a (taskDescription f)). set (f2 := Form a b).
  set (w1 := exec (App f) w). set (w2 := exec (App f1) w1).
  set (w3 := exec (App f2) w2).
  assert (exec (session [TypeTitle a; TypeDescription b; ClickCreate] f) w
          = exec (create (str a) (str b)) w3) as -> by reflexivity.
  assert (tasks w3 = tasks w) as HT.
  { unfold w3, w2, w1.
    destruct (App_world f2 (exec (App f1) (exec (App f) w))) as [-> _].
    destruct (App_world f1 (exec (App f) w)) as [-> _].
    by destruct (App_world f w) as [-> _]. }
  exists (eval uuid w3). rewrite tasks_create, HT.
  split; [done|]. by rewrite filter_cons_True.
Qed.
End gestures.

(** * The statistics and the operations of the store *)

Section statistics_properties.
Implicit Types (w : world) (ts : list task) (t : task) (X S T D : value).

Lemma statistics_counters ts ts' :
  counters ts = counters ts' → statistics ts = statistics ts'.
Proof. unfold statistics. by intros ->. Qed.

(** The statistics do not depend on the order of the list, and tasks whose
    status is not one of the three real ones (which the store does accept)
    count for nothing, in the counters and in the percentage. *)
Theorem statistics_ignore_order_and_other_statuses ts :
  (∀ ts', ts ≡ₚ ts' → statistics ts = statistics ts')
  ∧ statistics (filter (λ t, real_status (status t)) ts) = statistics ts.
Proof.
  split.
  - intros ts' Hperm. apply statistics_counters. rewrite !counters_filter.
    by rewrite Hperm.
  - apply statistics_counters. rewrite !counters_filter, !list_filter_filter.
    repeat f_equal; apply list_filter_iff; intros t; split;
      try tauto; intros H; (split; [done|]); unfold real_status; tauto.
Qed.

Lemma counters_insert l1 t l2 :
  counters (l1 ++ t :: l2) = count (counters (l1 ++ l2)) t.
Proof.
  rewrite !counters_filter, !filter_app, !filter_cons, !length_app.
  unfold count.
  destruct (decide (status t = Status.backlog)) as [Hb|Hb];
    [|destruct (decide (status t = Status.inwork)) as [Hi|Hi];
      [|destruct (decide (status t = Status.done)) as [Hd|Hd]]].
  - rewrite !decide_False by (by rewrite Hb). simpl.
    by rewrite Nat.add_succ_r.
  - rewrite decide_False by (by rewrite Hi). simpl.
    by rewrite Nat.add_succ_r.
  - simpl. by rewrite Nat.add_succ_r.
  - done.
Qed.

(** [create] adds one to the backlog counter and leaves the other two. *)
Theorem create_counts_one_more_backlog w T D :
  counters (tasks (exec (create T D) w))
  = (S (counters (tasks w)).1.1, (counters (tasks w)).1.2,
     (counters (tasks w)).2).
Proof.
  rewrite tasks_create.
  pose proof (counters_insert [] (Task (str (eval uuid w)) T D Status.backlog)
                (tasks w)) as Hins.
  cbn [app] in Hins. rewrite Hins.
  by destruct (counters (tasks w)) as [[b i] d].
Qed.

(** With unique ids, changing the status of a task moves one unit between
    the counters: the counters without the task, plus the task as it is,
    are the counters before; plus the task with its new status, they are
    the counters after. *)
Theorem update_moves_one_unit_between_the_counters w t S :
  NoDup (id <$> tasks w) → t ∈ tasks w →
  let rest := counters (tasks (exec (remove (id t)) w)) in
  counters (tasks w) = count rest t
  ∧ counters (tasks (exec (update (id t) S) w))
    = count rest (Task (id t) (title t) (description t) S).
Proof.
  intros Hnd Hin rest. subst rest.
  destruct (remove_present (tasks w) (id t) Hnd) as (l1 & t' & l2 & Hw & Hid & Hrm);
    [by exists t|].
  assert (t' = t) as ->.
  { rewrite Hw in Hin, Hnd.
    rewrite fmap_app, fmap_cons in Hnd.
    apply NoDup_app in Hnd as (_ & Hdisj & Hnd2).
    apply NoDup_cons in Hnd2 as [Hnot _].
    apply elem_of_app in Hin as [Hin|Hin].
    - exfalso. apply (Hdisj (id t)); [by apply list_elem_of_fmap_2|].
      rewrite <- Hid. left.
    - apply elem_of_cons in Hin as [->|Hin]; [done|].
      exfalso. apply Hnot. rewrite Hid. by apply list_elem_of_fmap_2. }
  rewrite tasks_remove, Hrm, tasks_update, Hw.
  split; [apply counters_insert|].
  rewrite fmap_app, fmap_cons, decide_True by done.
  assert (∀ l, (∀ t0, t0 ∈ l → id t0 ≠ id t) →
               (λ task, if decide (id task = id t)
                        then Task (id task) (title task) (description task) S
                        else task) <$> l = l) as Hsame
    by (intros l Hl; by apply update_absent).
  assert (∀ t0, t0 ∈ l1 ++ l2 → id t0 ≠ id t) as Hothers.
  { intros t0 Ht0. rewrite <- Hrm in Ht0.
    apply list_elem_of_filter in Ht0 as [Hne _]. congruence. }
  rewrite !Hsame by (intros t0 Ht0; apply Hothers; set_solver).
  apply counters_insert.
Qed.

Lemma update_moves_one_unit_between_the_counters_witness :
  counters
    (tasks (exec (update (str [0x61]) Status.done)
              (World [sample_task 0x61 Status.backlog;
                      sample_task 0x62 Status.backlog] ∅ sample_ids 0)))
  = (1, 0, 1)%nat.
Proof.
  destruct (update_moves_one_unit_between_the_counters
              (World [sample_task 0x61 Status.backlog;
                      sample_task 0x62 Status.backlog] ∅ sample_ids 0)
              (sample_task 0x61 Status.backlog) Status.done) as [_ Hafter].
  - apply (bool_decide_unpack _). vm_compute. exact I.
  - left.
  - exact Hafter.
Defined.
End statistics_properties.

Section rendering.
Implicit Types (w : world) (ts : list task) (S : value) (f : form).

Lemma taskFilterList_count ts S w :
  uuid_count (exec (taskFilterList ts S) w)
  = (uuid_count w
     + if decide (filter (λ task, status task = S) ts = []) then 1 else 0)%nat.
Proof.
  change (exec (taskFilterList ts S) w) with (exec (taskFilter ts S) w).
  unfold exec. case_decide as Hnil.
  - rewrite taskFilter_placeholder by done. simpl. lia.
  - rewrite taskFilter_real by done. simpl. lia.
Qed.

(** Rendering the page writes nothing: the store's list and [localStorage]
    are as they were.  All it uses up is identifiers, one for each list
    that has no task to show. *)
Theorem rendering_writes_nothing f w :
  tasks (exec (App f) w) = tasks w
  ∧ localStorage (exec (App f) w) = localStorage w
  ∧ uuid_stream (exec (App f) w) = uuid_stream w
  ∧ uuid_count (exec (App f) w) = (uuid_count w + empty_lists (tasks w))%nat.
Proof.
  destruct (App_world f w) as (HT & HL & HS & _).
  split; [done|]. split; [done|]. split; [done|].
  unfold exec. rewrite App_eq. cbn [snd].
  rewrite !taskFilterList_count. unfold empty_lists.
  rewrite !filter_cons, filter_nil.
  repeat case_decide; simpl; lia.
Qed.
End rendering.

(** * The percentage is between 0 and 100 *)

Section tight_rounding.
Local Open Scope Z_scope.
Import Number.

Lemma nothing_lost_exact r : loc_of_shr_record r = loc_Exact ↔ nothing_lost r.
Proof. unfold nothing_lost. destruct r as [m [] []]; simpl; split; (done || by intros [??]). Qed.

Lemma shr_1_nothing_lost r :
  0 ≤ shr_m r → nothing_lost r → shr_m r mod 2 = 0 → nothing_lost (shr_1 r).
Proof.
  destruct r as [m rr ss]. cbn [shr_m]. intros Hm [Hr Hs] Hmod.
  cbn [shr_r shr_s] in *. subst rr ss.
  destruct m as [|[p|p|]|p]; try done.
  pose proof (Z.div_mod (Zpos p~1) 2 ltac:(done)) as Hdm.
  rewrite Hmod in Hdm. lia.
Qed.

Lemma mod_pow_split m a b :
  0 ≤ a → 0 ≤ b → m mod 2 ^ (a + b) = 0 →
  m mod 2 ^ a = 0 ∧ (m / 2 ^ a) mod 2 ^ b = 0.
Proof.
  intros Ha Hb Hmod.
  assert (0 < 2 ^ a) by (apply Z.pow_pos_nonneg; lia).
  assert (0 < 2 ^ b) by (apply Z.pow_pos_nonneg; lia).
  apply Z.mod_divide in Hmod; [|rewrite Z.pow_add_r by lia; lia].
  destruct Hmod as [z Hz]. rewrite Z.pow_add_r in Hz by lia.
  assert (m = z * 2 ^ b * 2 ^ a) as -> by lia.
  rewrite Z.mod_mul, Z.div_mul by lia. by rewrite Z.mod_mul by lia.
Qed.

Lemma iter_pos_nothing_lost n : ∀ r,
  0 ≤ shr_m r → nothing_lost r → shr_m r mod 2 ^ Zpos n = 0 →
  nothing_lost (SpecFloat.iter_pos shr_1 n r).
Proof.
  induction n as [n IH|n IH|]; intros r Hm Hr Hmod; cbn [SpecFloat.iter_pos].
  - replace (Zpos n~1) with (1 + (Zpos n + Zpos n)) in Hmod by lia.
    apply mod_pow_split in Hmod as [H1 H2]; [|lia..].
    apply mod_pow_split in H2 as [H2 H3]; [|lia..].
    change (2 ^ 1) with 2 in *.
    assert (0 ≤ shr_m (shr_1 r))
      by (rewrite shr_1_m by done; apply Z.div_pos; lia).
    assert (0 < 2 ^ Zpos n) by (apply Z.pow_pos_nonneg; lia).
    apply IH.
    + rewrite iter_pos_shr_1 by done. apply Z.div_pos; lia.
    + apply IH; [done|by apply shr_1_nothing_lost|by rewrite shr_1_m].
    + rewrite iter_pos_shr_1, shr_1_m by done. done.
  - replace (Zpos n~0) with (Zpos n + Zpos n) in Hmod by lia.
    apply mod_pow_split in Hmod as [H1 H2]; [|lia..].
    assert (0 < 2 ^ Zpos n) by (apply Z.pow_pos_nonneg; lia).
    apply IH.
    + rewrite iter_pos_shr_1 by done. apply Z.div_pos; lia.
    + by apply IH.
    + by rewrite iter_pos_shr_1.
  - apply shr_1_nothing_lost; [done..|]. by change (2 ^ 1) with 2 in Hmod.
Qed.

Lemma tight_digits C g m e :
  0 < C < 2 ^ 53 → e ≤ g → 0 ≤ m ≤ C * 2 ^ (g - e) →
  Zdigits2 m + e - 53 ≤ g.
Proof.
  intros HC He Hm. destruct m as [|p|p]; [simpl; lia| |lia].
  cbn [Zdigits2].
  assert (0 < 2 ^ (g - e)) by (apply Z.pow_pos_nonneg; lia).
  assert (Zpos p < 2 ^ (53 + (g - e))) as Hlt
    by (rewrite Z.pow_add_r by lia; nia).
  pose proof (digits_le_of_lt p _ Hlt). lia.
Qed.

Lemma shr_fexp_tight C g m e l :
  0 < C < 2 ^ 53 → -1074 ≤ g → tight C g m e l →
  tight C g (shr_m (fst (shr_fexp prec emax m e l)))
    (snd (shr_fexp prec emax m e l))
    (loc_of_shr_record (fst (shr_fexp prec emax m e l))).
Proof.
  intros HC Hg (He & Hm & Hl).
  pose proof (tight_digits C g m e HC He Hm) as Hd.
  unfold shr_fexp, shr.
  destruct (fexp prec emax (Zdigits2 m + e) - e) as [|n|n] eqn:Hn;
    try (cbn [fst snd]; by destruct l as [|[]]).
  cbn [fst snd].
  assert (shr_m (shr_record_of_loc m l) = m) as Hrec by (by destruct l as [|[]]).
  rewrite iter_pos_shr_1 by (rewrite Hrec; lia). rewrite Hrec.
  assert (e + Zpos n ≤ g) as He'
    by (unfold fexp, prec, emax, emin in Hn; lia).
  assert (0 < 2 ^ Zpos n) as Hpow by (apply Z.pow_pos_nonneg; lia).
  assert (0 < 2 ^ (g - (e + Zpos n))) by (apply Z.pow_pos_nonneg; lia).
  assert (2 ^ (g - e) = 2 ^ (g - (e + Zpos n)) * 2 ^ Zpos n) as Hsplit
    by (rewrite <- Z.pow_add_r by lia; f_equal; lia).
  assert (m / 2 ^ Zpos n ≤ C * 2 ^ (g - (e + Zpos n))) as Hle.
  { apply Z.div_le_upper_bound; [done|]. rewrite Hsplit in Hm. lia. }
  split; [done|]. split; [split; [apply Z.div_pos; lia|done]|].
  intros Hinexact.
  destruct (Z.eq_dec (m / 2 ^ Zpos n) (C * 2 ^ (g - (e + Zpos n))))
    as [Heq|]; [|lia].
  exfalso. apply Hinexact. apply nothing_lost_exact.
  pose proof (Z.mul_div_le m (2 ^ Zpos n) Hpow) as Hfloor.
  assert (m = C * 2 ^ (g - e)) as Hm_eq by (rewrite Hsplit; nia).
  assert (l = loc_Exact) as ->
    by (destruct l as [|c]; [done|]; exfalso; assert (m < C * 2 ^ (g - e)) by (by apply Hl); lia).
  apply iter_pos_nothing_lost; [cbn [shr_record_of_loc shr_m]; lia|done|].
  cbn [shr_record_of_loc shr_m]. rewrite Hm_eq, Hsplit.
  by rewrite Z.mul_assoc, Z.mod_mul by lia.
Qed.

Lemma round_nearest_even_tight C g m e l :
  tight C g m e l → tight C g (round_nearest_even m l) e loc_Exact.
Proof.
  intros (He & Hm & Hl). split; [done|]. split; [|done].
  destruct l as [|c]; [done|].
  assert (m < C * 2 ^ (g - e)) by (by apply Hl).
  destruct c; cbn [round_nearest_even]; try lia.
  destruct (Z.even m); lia.
Qed.

(** Rounding a value that is at most [C * 2^g], a binary64 number, gives a
    number that is at most [C * 2^g]. *)
Lemma binary_round_aux_at_most C g mx ex lx :
  0 < C < 2 ^ 53 → -1074 ≤ g ≤ 971 → tight C g mx ex lx →
  at_most C g (binary_round_aux prec emax false mx ex lx).
Proof.
  intros HC Hg Hin. unfold binary_round_aux.
  pose proof (shr_fexp_tight C g mx ex lx HC ltac:(lia) Hin) as H1.
  destruct (shr_fexp prec emax mx ex lx) as [mrs' e']. cbn [fst snd] in H1.
  apply round_nearest_even_tight in H1.
  pose proof (shr_fexp_tight C g _ _ loc_Exact HC ltac:(lia) H1) as H2.
  destruct (shr_fexp prec emax _ e' loc_Exact) as [mrs'' e''].
  cbn [fst snd] in H2. destruct H2 as (He & Hm & _).
  destruct (shr_m mrs'') as [|m|m]; [done| |lia].
  assert (e'' ≤ emax - prec) as Hle by (unfold emax, prec; lia).
  apply Z.leb_le in Hle. rewrite Hle. split; [done|lia].
Qed.

Lemma digits_of_scaled p k m :
  0 ≤ k → Zpos m = Zpos p * 2 ^ k →
  Zpos (digits2_pos m) = Zpos (digits2_pos p) + k.
Proof.
  intros Hk Hm. pose proof (digits2_pos_bounds p) as [Hlo Hhi].
  assert (0 < 2 ^ k) by (apply Z.pow_pos_nonneg; lia).
  assert (Zpos m < 2 ^ (Zpos (digits2_pos p) + k)) as H1
    by (rewrite Z.pow_add_r, Hm by lia; nia).
  assert (2 ^ (Zpos (digits2_pos p) - 1 + k) ≤ Zpos m) as H2
    by (rewrite Z.pow_add_r, Hm by lia; nia).
  pose proof (digits_le_of_lt m _ H1). pose proof (lt_of_digits m _ H2). lia.
Qed.

Lemma new_location_exact m r : new_location m r ≠ loc_Exact → r ≠ 0.
Proof.
  intros Hl ->. apply Hl. unfold new_location.
  by destruct (Z.even m).
Qed.

Lemma div_eucl_div_mod a b : Z.div_eucl a b = (a / b, a mod b).
Proof. unfold Z.div, Z.modulo. by destruct (Z.div_eucl a b). Qed.

(** A whole number divided by a whole number that is not smaller (both
    below 2^53, as binary64 values) is at most 1. *)
Lemma div_at_most_one d t m1 e1 m2 e2 :
  0 < d ≤ t → t < 2 ^ 53 → e1 ≤ 0 → e2 ≤ 0 →
  Zpos m1 = d * 2 ^ (- e1) → Zpos m2 = t * 2 ^ (- e2) →
  at_most 1 0 (div (S754_finite false m1 e1) (S754_finite false m2 e2)).
Proof.
  intros Hd Ht He1 He2 Hm1 Hm2.
  destruct d as [|pd|pd]; [lia| |lia]. destruct t as [|pt|pt]; [lia| |lia].
  pose proof (digits_of_scaled pd (- e1) m1 ltac:(lia) Hm1) as Hd1.
  pose proof (digits_of_scaled pt (- e2) m2 ltac:(lia) Hm2) as Hd2.
  assert (Zpos (digits2_pos pd) ≤ Zpos (digits2_pos pt)) as Hdig.
  { apply digits_le_of_lt. pose proof (digits2_pos_bounds pt). lia. }
  unfold div, SFdiv, SFdiv_core_binary. cbn [xorb Zdigits2].
  set (e' := Z.min (fexp prec emax (Zpos (digits2_pos m1) + e1
                                    - (Zpos (digits2_pos m2) + e2)))
               (e1 - e2)).
  assert (e' ≤ 0) as He' by (unfold e', fexp, prec, emax, emin; lia).
  assert (0 ≤ e1 - e2 - e') as Hs by (unfold e'; lia).
  set (m' := match e1 - e2 - e' with
             | Z0 => Zpos m1
             | Zpos _ => Z.shiftl (Zpos m1) (e1 - e2 - e')
             | Zneg _ => 0
             end).
  assert (m' = Zpos m1 * 2 ^ (e1 - e2 - e')) as Hm'.
  { unfold m'. destruct (e1 - e2 - e') as [|s|s] eqn:Hse; [simpl; lia| |lia].
    by rewrite Z.shiftl_mul_pow2. }
  rewrite div_eucl_div_mod.
  apply (binary_round_aux_at_most 1 0); [done|lia|].
  assert (0 < 2 ^ (e1 - e2 - e')) by (apply Z.pow_pos_nonneg; lia).
  assert (0 < 2 ^ (- e1)) by (apply Z.pow_pos_nonneg; lia).
  assert (0 < 2 ^ (- e2)) by (apply Z.pow_pos_nonneg; lia).
  assert (0 < 2 ^ (0 - e')) by (apply Z.pow_pos_nonneg; lia).
  assert (2 ^ (- e1) * 2 ^ (e1 - e2 - e') = 2 ^ (0 - e') * 2 ^ (- e2)) as Hexp
    by (rewrite <- !Z.pow_add_r by lia; f_equal; lia).
  pose proof (Z.div_mod m' (Zpos m2) ltac:(lia)) as Hdm.
  pose proof (Z.mod_pos_bound m' (Zpos m2) ltac:(lia)) as Hmod.
  assert (m' = Zpos pd * (2 ^ (0 - e') * 2 ^ (- e2))) as Hm'2
    by (rewrite Hm', Hm1, <- Hexp; lia).
  set (q := m' / Zpos m2) in *. set (r := m' mod Zpos m2) in *.
  assert (0 ≤ q) by (apply Z.div_pos; lia).
  assert (q * Zpos pt * 2 ^ (- e2) + r
          = Zpos pd * 2 ^ (0 - e') * 2 ^ (- e2)) as Heq
    by (rewrite Hm2 in Hdm; lia).
  split; [done|]. rewrite Z.mul_1_l. split; [split; [done|]|].
  - assert (q * Zpos pt ≤ Zpos pd * 2 ^ (0 - e')) by nia. nia.
  - intros Hl. apply new_location_exact in Hl.
    assert (q * Zpos pt < Zpos pd * 2 ^ (0 - e')) by nia. nia.
Qed.

(** A number that is at most 1, multiplied by 100. *)
Lemma mul_100_at_most x : at_most 1 0 x → at_most 100 0 (mul x (of_nat 100)).
Proof.
  rewrite of_nat_100. destruct x as [[]|[]| |[] m e]; try done.
  intros [He Hm]. unfold mul, SFmul. cbn [xorb].
  apply (binary_round_aux_at_most 100 0); [done|lia|].
  split; [lia|]. split; [|done]. split; [lia|].
  rewrite Pos2Z.inj_mul.
  replace (0 - (e + -46)) with ((0 - e) + 46) by lia.
  rewrite Z.pow_add_r by lia.
  change 7036874417766400 with (100 * 2 ^ 46).
  assert (0 < 2 ^ (0 - e)) by (apply Z.pow_pos_nonneg; lia). nia.
Qed.

Lemma toFixed_at_most x :
  at_most 100 0 x →
  isNaN x = false
  ∧ ∃ n, 0 ≤ n ≤ 1000 ∧ toFixed 1 x = Some (decimal 1 n).
Proof.
  destruct x as [[]|[]| |[] m e]; try done.
  - intros _. split; [done|]. by exists 0.
  - intros [He Hm]. split; [done|].
    assert (0 < 2 ^ (- e)) as Hden by (apply Z.pow_pos_nonneg; lia).
    replace (0 - e) with (- e) in Hm by lia.
    exists (nearest 1 m e). cbn [toFixed].
    assert (below_1e21 m e = true) as ->.
    { unfold below_1e21. apply Z.ltb_lt.
      rewrite Z.max_r, Z.max_l by lia. rewrite Z.pow_0_r.
      assert (100 < 10 ^ 21) by done. nia. }
    split; [|done]. unfold nearest.
    rewrite Z.max_r, Z.max_l by lia. rewrite Z.pow_0_r.
    change (10 ^ Z.of_nat 1) with 10. split.
    + apply Z.div_pos; lia.
    + assert ((2 * (Zpos m * 1 * 10) + 2 ^ (- e)) / (2 * 2 ^ (- e)) < 1001);
        [|lia].
      apply Z.div_lt_upper_bound; lia.
Qed.

Lemma percentage_at_most b i d :
  (0 < b + d + i)%nat → Z.of_nat (b + d + i) < 2 ^ 53 →
  at_most 100 0 (percentage b i d).
Proof.
  intros Hpos Hlt. unfold percentage. apply mul_100_at_most.
  destruct (of_nat_exact (b + d + i) Hpos Hlt) as (m2 & e2 & -> & He2 & Hm2).
  destruct d as [|d]; [done|].
  destruct (of_nat_exact (S d) ltac:(lia) ltac:(lia))
    as (m1 & e1 & -> & He1 & Hm1).
  apply (div_at_most_one (Z.of_nat (S d)) (Z.of_nat (b + S d + i)));
    (done || lia).
Qed.

(** A binary64 number divided by itself is 1. *)
Lemma div_self m e :
  div (S754_finite false m e) (S754_finite false m e)
  = S754_finite false 4503599627370496 (-52).
Proof.
  unfold div, SFdiv, SFdiv_core_binary. cbn [xorb Zdigits2].
  replace (Zpos (digits2_pos m) + e - (Zpos (digits2_pos m) + e)) with 0
    by lia.
  rewrite Z.sub_diag.
  change (Z.min (fexp prec emax 0) 0) with (-53).
  change (0 - -53) with 53.
  rewrite Z.shiftl_mul_pow2, div_eucl_div_mod by done.
  rewrite (Z.mul_comm (Zpos m)), Z.div_mul, Z.mod_mul by done.
  assert (new_location (Zpos m) 0 = loc_Exact) as ->
    by (unfold new_location; by destruct (Z.even _)).
  reflexivity.
Qed.
End tight_rounding.

Section percentage_range.
Implicit Types (ts : list task).

Lemma counters_le_length ts b i d :
  counters ts = (b, i, d) → (b + d + i ≤ length ts)%nat.
Proof.
  rewrite counters_filter. intros [= <- <- <-]. apply counted_le_length.
Qed.

(** The percentage that the page shows is never below 0 or above 100: it
    is the number [0] (when no task is counted) or the text of [n / 10]
    for a whole number [n] from 0 to 1000. *)
Theorem the_percentage_is_between_0_and_100 ts :
  (Z.of_nat (length ts) < 2 ^ 53)%Z →
  ∃ percent,
    (statistics ts).2 = Some percent
    ∧ (percent = Num (S754_zero false)
       ∨ ∃ n, (0 ≤ n ≤ 1000)%Z ∧ percent = Text (Number.decimal 1 n)).
Proof.
  intros Hlen. unfold statistics.
  destruct (counters ts) as [[b i] d] eqn:Hc. cbn [snd].
  pose proof (counters_le_length ts b i d Hc) as Hle.
  destruct (decide (b + d + i = 0)%nat) as [Hzero|Hpos].
  - assert (b = 0%nat ∧ i = 0%nat ∧ d = 0%nat) as (-> & -> & ->) by lia.
    exists (Num (S754_zero false)). split; [reflexivity|by left].
  - destruct (toFixed_at_most (percentage b i d))
      as (Hnan & n & Hn & Hfixed); [apply percentage_at_most; lia|].
    exists (Text (Number.decimal 1 n)). rewrite Hnan, Hfixed.
    split; [done|]. right. by exists n.
Qed.

Lemma the_percentage_is_between_0_and_100_witness :
  ∃ percent,
    (statistics [sample_task 0x61 Status.done;
                 sample_task 0x62 Status.backlog;
                 sample_task 0x63 Status.inwork]).2 = Some percent
    ∧ (percent = Num (S754_zero false)
       ∨ ∃ n, (0 ≤ n ≤ 1000)%Z ∧ percent = Text (Number.decimal 1 n)).
Proof.
  apply the_percentage_is_between_0_and_100. reflexivity.
Defined.

(** The two ends of the percentage: when tasks are counted and none of
    them is done the text is ["0.0"], and when all of them are done it is
    ["100.0"], however many they are. *)
Theorem none_done_is_0_and_all_done_is_100 ts b i d :
  (Z.of_nat (length ts) < 2 ^ 53)%Z → counters ts = (b, i, d) →
  (d = 0%nat → (0 < b + i)%nat → (statistics ts).2 = Some (Text (lit "0.0")))
  ∧ (b = 0%nat → i = 0%nat → (0 < d)%nat →
     (statistics ts).2 = Some (Text (lit "100.0"))).
Proof.
  intros Hlen Hc. pose proof (counters_le_length ts b i d Hc) as Hle.
  unfold statistics. rewrite Hc. cbn [snd]. split.
  - intros -> Hpos. unfold percentage.
    destruct (of_nat_exact (b + 0 + i) ltac:(lia) ltac:(lia))
      as (m & e & -> & _). reflexivity.
  - intros -> -> Hpos. unfold percentage.
    destruct (of_nat_exact d Hpos ltac:(lia)) as (m & e & Hd & _).
    replace (0 + d + 0)%nat with d by lia. rewrite Hd.
    rewrite div_self. reflexivity.
Qed.

Lemma none_done_is_0_and_all_done_is_100_witness :
  (statistics [sample_task 0x61 Status.done;
               sample_task 0x62 Status.done;
               sample_task 0x63 Status.done]).2 = Some (Text (lit "100.0")).
Proof.
  destruct (none_done_is_0_and_all_done_is_100
              [sample_task 0x61 Status.done; sample_task 0x62 Status.done;
               sample_task 0x63 Status.done] 0 0 3) as [_ Hall];
    [reflexivity..|].
  apply Hall; [reflexivity..|]. apply Nat.lt_0_succ.
Defined.
End percentage_range.

(** * The percentage that is shown *)

Section close_rounding.
Local Open Scope Z_scope.
Import Number.

Lemma shr_fexp_shift m e l :
  0 ≤ m →
  ∃ k, 0 ≤ k ∧ snd (shr_fexp prec emax m e l) = e + k
       ∧ shr_m (fst (shr_fexp prec emax m e l)) = m / 2 ^ k
       ∧ (k = 0 ∨ e + k = fexp prec emax (Zdigits2 m + e)).
Proof.
  intros Hm. unfold shr_fexp, shr.
  assert (shr_m (shr_record_of_loc m l) = m) as Hrec by (by destruct l as [|[]]).
  destruct (fexp prec emax (Zdigits2 m + e) - e) as [|n|n] eqn:Hn.
  - exists 0. cbn [fst snd]. rewrite Hrec, Z.div_1_r. repeat split; (lia || by left).
  - exists (Zpos n). cbn [fst snd].
    rewrite iter_pos_shr_1 by (rewrite Hrec; lia). rewrite Hrec.
    repeat split; [lia|]. right. lia.
  - exists 0. cbn [fst snd]. rewrite Hrec, Z.div_1_r. repeat split; (lia || by left).
Qed.

Lemma tight_digits_c C c g m e :
  0 ≤ c → 0 < C < 2 ^ c → e ≤ g → 0 ≤ m ≤ C * 2 ^ (g - e) →
  Zdigits2 m + e ≤ c + g.
Proof.
  intros Hc HC He Hm. destruct m as [|p|p]; [simpl; lia| |lia].
  cbn [Zdigits2].
  assert (0 < 2 ^ (g - e)) by (apply Z.pow_pos_nonneg; lia).
  assert (Zpos p < 2 ^ (c + (g - e))) as Hlt
    by (rewrite Z.pow_add_r by lia; nia).
  pose proof (digits_le_of_lt p _ Hlt). lia.
Qed.

Lemma shr_fexp_exponent C c g G m e l :
  0 ≤ c → 0 < C < 2 ^ c → tight C g m e l →
  e ≤ G → c + g - 53 ≤ G → -1074 ≤ G →
  snd (shr_fexp prec emax m e l) ≤ G.
Proof.
  intros Hc HC (He & Hm & _) HeG HG HG'.
  pose proof (tight_digits_c C c g m e Hc HC He Hm) as Hd.
  destruct (shr_fexp_shift m e l ltac:(lia)) as (k & Hk & -> & _ & [->|Hfexp]);
    [lia|].
  rewrite Hfexp. unfold fexp, prec, emax, emin. lia.
Qed.

Lemma round_nearest_even_bounds m l :
  m ≤ round_nearest_even m l ≤ m + 1.
Proof.
  destruct l as [|[]]; cbn [round_nearest_even]; try lia.
  destruct (Z.even m); lia.
Qed.

Lemma binary_round_aux_close C c g G mx ex lx :
  0 ≤ c ≤ 53 → 0 < C < 2 ^ c → -1074 ≤ g ≤ 971 → tight C g mx ex lx →
  ex ≤ G → c + g - 53 ≤ G → -1074 ≤ G →
  ∃ m e, represents (binary_round_aux prec emax false mx ex lx) m e
    ∧ ex ≤ e ≤ G
    ∧ mx - 2 ^ (e - ex) ≤ m * 2 ^ (e - ex) ≤ mx + 2 ^ (e - ex).
Proof.
  intros Hc HC Hg Hin HexG HG HG'.
  assert (2 ^ c ≤ 2 ^ 53) by (apply Z.pow_le_mono_r; lia).
  assert (0 < C < 2 ^ 53) as HC53 by lia.
  assert (0 ≤ mx) as Hmx by (destruct Hin as (_ & ? & _); lia).
  unfold binary_round_aux.
  pose proof (shr_fexp_tight C g mx ex lx HC53 ltac:(lia) Hin) as H1.
  pose proof (shr_fexp_exponent C c g G mx ex lx ltac:(lia) HC Hin HexG HG HG')
    as HG1.
  destruct (shr_fexp_shift mx ex lx Hmx) as (k1 & Hk1 & He1 & Hm1 & _).
  destruct (shr_fexp prec emax mx ex lx) as [mrs' e']. cbn [fst snd] in *.
  pose proof (round_nearest_even_bounds (shr_m mrs') (loc_of_shr_record mrs'))
    as Hround.
  apply round_nearest_even_tight in H1.
  set (m'' := round_nearest_even (shr_m mrs') (loc_of_shr_record mrs')) in *.
  assert (0 ≤ m'') as Hm'' by (destruct H1 as (_ & ? & _); lia).
  pose proof (shr_fexp_tight C g _ _ loc_Exact HC53 ltac:(lia) H1) as H2.
  pose proof (shr_fexp_exponent C c g G m'' e' loc_Exact ltac:(lia) HC H1 HG1
                HG HG') as HG2.
  destruct (shr_fexp_shift m'' e' loc_Exact Hm'') as (k2 & Hk2 & He2 & Hm2 & _).
  destruct (shr_fexp prec emax m'' e' loc_Exact) as [mrs'' e''].
  cbn [fst snd] in *. destruct H2 as (He & Hm & _).
  assert (0 < 2 ^ k1) as Hp1 by (apply Z.pow_pos_nonneg; lia).
  assert (0 < 2 ^ k2) as Hp2 by (apply Z.pow_pos_nonneg; lia).
  assert (2 ^ (e'' - ex) = 2 ^ k2 * 2 ^ k1) as Hpow
    by (rewrite <- Z.pow_add_r by lia; f_equal; lia).
  pose proof (Z.div_mod mx (2 ^ k1) ltac:(lia)) as Hdm1.
  pose proof (Z.mod_pos_bound mx (2 ^ k1) ltac:(lia)) as Hmod1.
  pose proof (Z.div_mod m'' (2 ^ k2) ltac:(lia)) as Hdm2.
  pose proof (Z.mod_pos_bound m'' (2 ^ k2) ltac:(lia)) as Hmod2.
  rewrite <- Hm1 in Hdm1. rewrite <- Hm2 in Hdm2.
  assert (mx - 2 ^ (e'' - ex) ≤ shr_m mrs'' * 2 ^ (e'' - ex)
          ≤ mx + 2 ^ (e'' - ex)) as Herr.
  { rewrite Hpow.
    generalize dependent (mx mod 2 ^ k1). generalize dependent (m'' mod 2 ^ k2).
    intros r2 ? ? r1 ? ?. nia. }
  exists (shr_m mrs''), e''.
  destruct (shr_m mrs'') as [|m|m] eqn:Hfinal; [|  |lia].
  - split; [done|]. split; [lia|done].
  - assert (e'' ≤ emax - prec) as Hle by (unfold emax, prec; lia).
    apply Z.leb_le in Hle. rewrite Hle. split; [done|]. split; [lia|done].
Qed.

End close_rounding.

Section close_percentage.
Local Open Scope Z_scope.
Import Number.

Lemma div_core d t m1 e1 m2 e2 :
  0 < d ≤ t → t < 2 ^ 53 → e1 ≤ 0 → e2 ≤ 0 →
  Zpos m1 = d * 2 ^ (- e1) → Zpos m2 = t * 2 ^ (- e2) →
  ∃ q e' l,
    div (S754_finite false m1 e1) (S754_finite false m2 e2)
    = binary_round_aux prec emax false q e' l
    ∧ e' ≤ -53 ∧ tight 1 0 q e' l
    ∧ q * t ≤ d * 2 ^ (- e') < (q + 1) * t.
Proof.
  intros Hd Ht He1 He2 Hm1 Hm2.
  destruct d as [|pd|pd]; [lia| |lia]. destruct t as [|pt|pt]; [lia| |lia].
  pose proof (digits_of_scaled pd (- e1) m1 ltac:(lia) Hm1) as Hd1.
  pose proof (digits_of_scaled pt (- e2) m2 ltac:(lia) Hm2) as Hd2.
  assert (Zpos (digits2_pos pd) ≤ Zpos (digits2_pos pt)) as Hdig.
  { apply digits_le_of_lt. pose proof (digits2_pos_bounds pt). lia. }
  unfold div, SFdiv, SFdiv_core_binary. cbn [xorb Zdigits2].
  set (e' := Z.min (fexp prec emax (Zpos (digits2_pos m1) + e1
                                    - (Zpos (digits2_pos m2) + e2)))
               (e1 - e2)).
  assert (e' ≤ -53) as He'.
  { unfold e', fexp, prec, emax, emin. lia. }
  assert (0 ≤ e1 - e2 - e') as Hs by (unfold e'; lia).
  set (m' := match e1 - e2 - e' with
             | Z0 => Zpos m1
             | Zpos _ => Z.shiftl (Zpos m1) (e1 - e2 - e')
             | Zneg _ => 0
             end).
  assert (m' = Zpos m1 * 2 ^ (e1 - e2 - e')) as Hm'.
  { unfold m'. destruct (e1 - e2 - e') as [|s|s] eqn:Hse; [simpl; lia| |lia].
    by rewrite Z.shiftl_mul_pow2. }
  rewrite div_eucl_div_mod.
  eexists _, _, _. split; [reflexivity|]. split; [done|].
  assert (0 < 2 ^ (e1 - e2 - e')) by (apply Z.pow_pos_nonneg; lia).
  assert (0 < 2 ^ (- e1)) by (apply Z.pow_pos_nonneg; lia).
  assert (0 < 2 ^ (- e2)) by (apply Z.pow_pos_nonneg; lia).
  assert (0 < 2 ^ (- e')) by (apply Z.pow_pos_nonneg; lia).
  assert (2 ^ (- e1) * 2 ^ (e1 - e2 - e') = 2 ^ (- e') * 2 ^ (- e2)) as Hexp
    by (rewrite <- !Z.pow_add_r by lia; f_equal; lia).
  pose proof (Z.div_mod m' (Zpos m2) ltac:(lia)) as Hdm.
  pose proof (Z.mod_pos_bound m' (Zpos m2) ltac:(lia)) as Hmod.
  assert (m' = Zpos pd * (2 ^ (- e') * 2 ^ (- e2))) as Hm'2
    by (rewrite Hm', Hm1, <- Hexp; lia).
  set (q := m' / Zpos m2) in *. set (r := m' mod Zpos m2) in *.
  assert (0 ≤ q) by (apply Z.div_pos; lia).
  assert (q * Zpos pt * 2 ^ (- e2) + r
          = Zpos pd * 2 ^ (- e') * 2 ^ (- e2)) as Heq
    by (rewrite Hm2 in Hdm; lia).
  assert (q * Zpos pt ≤ Zpos pd * 2 ^ (- e')) as Hlo by nia.
  assert (Zpos pd * 2 ^ (- e') < (q + 1) * Zpos pt) as Hhi by nia.
  split; [|done].
  split; [lia|]. rewrite Z.mul_1_l. replace (0 - e') with (- e') by lia.
  split; [split; [done|nia]|].
  intros Hl. apply new_location_exact in Hl.
  assert (q * Zpos pt < Zpos pd * 2 ^ (- e')) by nia. nia.
Qed.

(** The binary64 quotient of two whole numbers, the first not above the
    second, is within [2^-51] of the quotient. *)
Lemma div_close d t m1 e1 m2 e2 :
  0 < d ≤ t → t < 2 ^ 53 → e1 ≤ 0 → e2 ≤ 0 →
  Zpos m1 = d * 2 ^ (- e1) → Zpos m2 = t * 2 ^ (- e2) →
  ∃ m e,
    represents (div (S754_finite false m1 e1) (S754_finite false m2 e2)) m e
    ∧ e ≤ -52
    ∧ d * 2 ^ (- e) - 2 * t ≤ m * t ≤ d * 2 ^ (- e) + 2 * t.
Proof.
  intros Hd Ht He1 He2 Hm1 Hm2.
  destruct (div_core d t m1 e1 m2 e2 Hd Ht He1 He2 Hm1 Hm2)
    as (q & e' & l & -> & He' & Htight & Hq).
  destruct (binary_round_aux_close 1 1 0 (-52) q e' l)
    as (m & e & Hrep & He & Herr); [done || lia..|].
  exists m, e. split; [done|]. split; [lia|].
  assert (0 < 2 ^ (e - e')) as HK by (apply Z.pow_pos_nonneg; lia).
  assert (0 < 2 ^ (- e)) as HA by (apply Z.pow_pos_nonneg; lia).
  assert (2 ^ (- e') = 2 ^ (- e) * 2 ^ (e - e')) as Hsplit
    by (rewrite <- Z.pow_add_r by lia; f_equal; lia).
  rewrite Hsplit in Hq.
  set (K := 2 ^ (e - e')) in *. set (A := 2 ^ (- e)) in *.
  clearbody K A. nia.
Qed.

(** Multiplied by 100, it is within [2^-43] of the percentage. *)
Lemma mul_100_close d t x mq eq :
  0 ≤ d → 0 < t → at_most 1 0 x → represents x mq eq → eq ≤ -52 →
  d * 2 ^ (- eq) - 2 * t ≤ mq * t ≤ d * 2 ^ (- eq) + 2 * t →
  ∃ m e,
    represents (mul x (of_nat 100)) m e ∧ e ≤ -46
    ∧ 100 * d * 2 ^ (- e) - t * 2 ^ (- 43 - e) ≤ m * t
      ≤ 100 * d * 2 ^ (- e) + t * 2 ^ (- 43 - e).
Proof.
  rewrite of_nat_100. intros Hd Ht Hone Hrep Heq Hclose.
  assert (2 ^ 52 ≤ 2 ^ (- eq)) as HA by (apply Z.pow_le_mono_r; lia).
  destruct x as [[]|[]| |[] p e0]; try done.
  - cbn in Hrep. subst mq. exists 0, (-46). split; [done|]. split; [done|].
    change (2 ^ (- -46)) with (2 ^ 46). change (2 ^ (-43 - -46)) with 8.
    change (2 ^ 52) with (64 * 2 ^ 46) in HA.
    set (A := 2 ^ (- eq)) in *. clearbody A. nia.
  - destruct Hrep as [-> <-]. destruct Hone as [_ Hone].
    unfold mul, SFmul. cbn [xorb].
    assert (tight 100 0 (Zpos (p * 7036874417766400)) (eq + -46) loc_Exact)
      as Htight.
    { split; [lia|]. split; [|done]. split; [lia|].
      rewrite Pos2Z.inj_mul.
      replace (0 - (eq + -46)) with ((- eq) + 46) by lia.
      rewrite Z.pow_add_r by lia.
      change 7036874417766400 with (100 * 2 ^ 46).
      replace (0 - eq) with (- eq) in Hone by lia. nia. }
    destruct (binary_round_aux_close 100 7 0 (-46) _ _ _ ltac:(lia) ltac:(done)
                ltac:(lia) Htight ltac:(lia) ltac:(lia) ltac:(lia))
      as (m & e & Hrep & He & Herr).
    exists m, e. split; [done|]. split; [lia|].
    rewrite Pos2Z.inj_mul in Herr.
    change (Zpos 7036874417766400) with (100 * 2 ^ 46) in Herr.
    assert (0 < 2 ^ (e - (eq + -46))) as HK by (apply Z.pow_pos_nonneg; lia).
    assert (2 ^ (e - (eq + -46)) ≤ 2 ^ (- eq)) as HKA
      by (apply Z.pow_le_mono_r; lia).
    assert (2 ^ (- e) * 2 ^ (e - (eq + -46)) = 2 ^ 46 * 2 ^ (- eq)) as HP
      by (rewrite <- !Z.pow_add_r by lia; f_equal; lia).
    assert (2 ^ (-43 - e) * 2 ^ (e - (eq + -46)) = 8 * 2 ^ (- eq)) as HQ
      by (change 8 with (2 ^ 3); rewrite <- !Z.pow_add_r by lia; f_equal; lia).
    assert (0 < 2 ^ (- e)) as HPpos by (apply Z.pow_pos_nonneg; lia).
    assert (0 < 2 ^ (-43 - e)) as HQpos by (apply Z.pow_pos_nonneg; lia).
    change (2 ^ 52) with (64 * 2 ^ 46) in HA.
    set (K := 2 ^ (e - (eq + -46))) in *. set (P := 2 ^ (- e)) in *.
    set (Q := 2 ^ (-43 - e)) in *. set (A := 2 ^ (- eq)) in *.
    set (B := 2 ^ 46) in *. assert (0 < B) by done.
    clearbody K P Q A B.
    assert (m * K * t ≤ 100 * d * (P * K) + t * (Q * K)) as Hub.
    { rewrite HP, HQ. nia. }
    assert (100 * d * (P * K) - t * (Q * K) ≤ m * K * t) as Hlb.
    { rewrite HP, HQ. nia. }
    nia.
Qed.

End close_percentage.

Section close_text.
Local Open Scope Z_scope.
Import Number.

(** [toFixed(1)] of a number within [2^-43] of the percentage of [d] in
    [t], for fewer than 2^32 tasks, is a number of tenths nearest to the
    percentage itself. *)
Lemma toFixed_close d t x m e :
  0 ≤ d ≤ t → 0 < t < 2 ^ 32 → at_most 100 0 x → represents x m e →
  e ≤ -46 →
  100 * d * 2 ^ (- e) - t * 2 ^ (- 43 - e) ≤ m * t
    ≤ 100 * d * 2 ^ (- e) + t * 2 ^ (- 43 - e) →
  ∃ n, toFixed 1 x = Some (decimal 1 n) ∧ 0 ≤ n ≤ 1000
       ∧ 2000 * d - t ≤ 2 * n * t ≤ 2000 * d + t.
Proof.
  intros Hd Ht Hmost Hrep He Hclose.
  assert (0 < 2 ^ (- 43 - e)) as HQ by (apply Z.pow_pos_nonneg; lia).
  assert (2 ^ (- e) = 2 ^ 43 * 2 ^ (- 43 - e)) as HP
    by (rewrite <- Z.pow_add_r by lia; f_equal; lia).
  assert ((2 : Z) ^ 32 = 4294967296) as H32 by done.
  assert ((2 : Z) ^ 43 = 8796093022208) as H43 by done.
  rewrite H32 in Ht. rewrite HP, H43 in Hclose.
  destruct x as [[]|[]| |[] p e0]; try done.
  - cbn in Hrep. subst m. exists 0. split; [done|]. split; [lia|].
    set (Q := 2 ^ (- 43 - e)) in *. clearbody Q.
    nia.
  - destruct Hrep as [-> <-]. destruct Hmost as [_ Hmost].
    replace (0 - e) with (- e) in Hmost by lia.
    exists (nearest 1 p e). cbn [toFixed].
    assert (0 < 2 ^ (- e)) as Hden by (apply Z.pow_pos_nonneg; lia).
    assert (below_1e21 p e = true) as ->.
    { unfold below_1e21. apply Z.ltb_lt.
      rewrite Z.max_r, Z.max_l by lia. rewrite Z.pow_0_r.
      assert (100 < 10 ^ 21) by done. nia. }
    split; [done|].
    pose proof (nearest_spec 1 p e) as Hn. cbv zeta in Hn.
    rewrite (Z.max_r e 0), (Z.max_l (- e) 0) in Hn by lia.
    rewrite Z.pow_0_r in Hn.
    change (10 ^ Z.of_nat 1) with 10 in Hn.
    rewrite HP, H43 in Hn, Hmost.
    set (n := nearest 1 p e) in *.
    set (Q := 2 ^ (- 43 - e)) in *. clearbody Q n.
    assert (2000 * d - t ≤ 2 * n * t ≤ 2000 * d + t) as Hnear.
    { assert (2 * (8796093022208 * Q) * n * t
              ≤ (2 * (Zpos p * 1 * 10) + 8796093022208 * Q) * t) as H1 by nia.
      assert ((2 * (Zpos p * 1 * 10) + 8796093022208 * Q) * t
              < 2 * (8796093022208 * Q) * (n + 1) * t) as H2 by nia.
      assert (8796093022208 * (2 * n * t) * Q
              ≤ (8796093022208 * (2000 * d + t) + 20 * t) * Q) as H3 by nia.
      assert ((8796093022208 * (2000 * d - t) - 20 * t) * Q
              < 8796093022208 * (2 * n * t) * Q) as H4 by nia.
      assert (8796093022208 * (2 * n * t)
              ≤ 8796093022208 * (2000 * d + t) + 20 * t) as H5 by nia.
      assert (8796093022208 * (2000 * d - t) - 20 * t
              < 8796093022208 * (2 * n * t)) as H6 by nia.
      lia. }
    split; [|done]. nia.
Qed.

(** The percentage of fewer than 2^32 tasks, as [toFixed(1)] writes it. *)
Lemma percentage_close b i d :
  (0 < b + d + i)%nat → Z.of_nat (b + d + i) < 2 ^ 32 →
  isNaN (percentage b i d) = false
  ∧ ∃ n, toFixed 1 (percentage b i d) = Some (decimal 1 n) ∧ 0 ≤ n ≤ 1000
         ∧ 2000 * Z.of_nat d - Z.of_nat (b + d + i)
           ≤ 2 * n * Z.of_nat (b + d + i)
           ≤ 2000 * Z.of_nat d + Z.of_nat (b + d + i).
Proof.
  intros Hpos Hlt.
  assert ((2 : Z) ^ 32 < 2 ^ 53) as Hpow by done.
  split; [apply toFixed_at_most, percentage_at_most; lia|].
  unfold percentage.
  destruct (of_nat_exact (b + d + i) Hpos ltac:(lia))
    as (m2 & e2 & Ht & He2 & Hm2).
  destruct d as [|d].
  - rewrite Ht. exists 0. split; [reflexivity|]. lia.
  - destruct (of_nat_exact (S d) ltac:(lia) ltac:(lia))
      as (m1 & e1 & Hd & He1 & Hm1).
    rewrite Ht, Hd.
    pose proof (div_at_most_one (Z.of_nat (S d)) (Z.of_nat (b + S d + i))
                  m1 e1 m2 e2 ltac:(lia) ltac:(lia) ltac:(lia) ltac:(lia)
                  Hm1 Hm2) as Hone.
    destruct (div_close (Z.of_nat (S d)) (Z.of_nat (b + S d + i))
                m1 e1 m2 e2 ltac:(lia) ltac:(lia) ltac:(lia) ltac:(lia)
                Hm1 Hm2) as (mq & eq & Hrep & Heq & Hq).
    destruct (mul_100_close (Z.of_nat (S d)) (Z.of_nat (b + S d + i)) _ mq eq
                ltac:(lia) ltac:(lia) Hone Hrep Heq Hq)
      as (m & e & Hrep' & He & Hp).
    apply (toFixed_close (Z.of_nat (S d)) (Z.of_nat (b + S d + i)) _ m e);
      [lia|lia| |done|done|done].
    by apply mul_100_at_most.
Qed.

End close_text.

Section shown_percentage.
Implicit Types (ts : list task).

(** A number of tenths within half a tenth of the percentage is the
    percentage rounded (a half going up), or, when the percentage is half
    way between two tenths, possibly the tenth below. *)
Lemma nearest_tenth_rounded (d t : nat) (n : Z) :
  (0 < t)%nat →
  (2000 * Z.of_nat d - Z.of_nat t ≤ 2 * n * Z.of_nat t
   ≤ 2000 * Z.of_nat d + Z.of_nat t)%Z →
  (n = rounded_percentage d t
   ∨ ((2000 * Z.of_nat d + Z.of_nat t) mod (2 * Z.of_nat t) = 0
      ∧ n = rounded_percentage d t - 1))%Z.
Proof.
  intros Ht Hn. unfold rounded_percentage.
  replace (2 * (1000 * Z.of_nat d) + Z.of_nat t)%Z
    with (2000 * Z.of_nat d + Z.of_nat t)%Z by lia.
  pose proof (Z.div_mod (2000 * Z.of_nat d + Z.of_nat t) (2 * Z.of_nat t)
                ltac:(lia)) as Hdm.
  pose proof (Z.mod_pos_bound (2000 * Z.of_nat d + Z.of_nat t)
                (2 * Z.of_nat t) ltac:(lia)) as Hmod.
  set (r := ((2000 * Z.of_nat d + Z.of_nat t) / (2 * Z.of_nat t))%Z) in *.
  set (m := ((2000 * Z.of_nat d + Z.of_nat t) mod (2 * Z.of_nat t))%Z) in *.
  clearbody r m.
  destruct (Z.eq_dec m 0%Z) as [->|Hm]; [|left; nia].
  destruct (Z.eq_dec n r) as [->|Hr]; [by left|]. right. split; [done|]. nia.
Qed.

(** C6, as amended.  The statistics are a function of the task list alone.
    The three counters are the numbers of tasks with status [Backlog],
    [InProgress] and [Done].  With no such task (so for the empty list) the
    percentage is the number [0], and it is never [NaN].  Otherwise it is a
    text with one digit after the point, which writes a whole number [n] of
    tenths, from 0 to 1000, that differs from the exact value of
    [done / (backlog + inwork + done) * 100] by at most half a tenth: it is
    that value rounded to one decimal place (a half going up), or, only
    when that value is exactly half way between two tenths, possibly the
    tenth below.  With counters 2, 1 and 1 the text is ["25.0"].  (For
    lists of fewer than 2^32 tasks, the most an array holds.) *)
Theorem statistics_are_the_counts_and_the_nearest_tenth ts :
  (Z.of_nat (length ts) < 2 ^ 32)%Z →
  let backlog := length (filter (λ t, status t = Status.backlog) ts) in
  let inwork := length (filter (λ t, status t = Status.inwork) ts) in
  let done := length (filter (λ t, status t = Status.done) ts) in
  let total := (backlog + inwork + done)%nat in
  ∃ percent,
    statistics ts = (backlog, inwork, done, Some percent)
    ∧ percent ≠ Num S754_nan
    ∧ (ts = [] → percent = Num (S754_zero false))
    ∧ (total = 0%nat → percent = Num (S754_zero false))
    ∧ ((0 < total)%nat →
       ∃ n whole digit,
         percent = Text (Number.decimal 1 n)
         ∧ Number.decimal 1 n = whole ++ [0x2E%N; digit]
         ∧ (0 ≤ n ≤ 1000)%Z
         ∧ (2000 * Z.of_nat done - Z.of_nat total
            ≤ 2 * n * Z.of_nat total
            ≤ 2000 * Z.of_nat done + Z.of_nat total)%Z
         ∧ (n = rounded_percentage done total
            ∨ ((2000 * Z.of_nat done + Z.of_nat total)
                 mod (2 * Z.of_nat total) = 0
               ∧ n = rounded_percentage done total - 1))%Z)
    ∧ (backlog = 2%nat → inwork = 1%nat → done = 1%nat →
       percent = Text (lit "25.0")).
Proof.
  intros Hlen backlog inwork done total. unfold statistics.
  rewrite counters_filter. fold backlog inwork done.
  pose proof (counted_le_length ts) as Hle. fold backlog inwork done in Hle.
  destruct (decide (backlog + done + inwork = 0)%nat) as [Hzero|Hpos].
  - assert (backlog = 0%nat ∧ inwork = 0%nat ∧ done = 0%nat)
      as (Hb & Hi & Hd) by lia.
    subst total. rewrite Hb, Hi, Hd.
    exists (Num (S754_zero false)).
    split; [reflexivity|]. split; [done|]. split; [done|]. split; [done|].
    split; [intros H; simpl in H; lia|]. intros H. discriminate H.
  - destruct (percentage_close backlog inwork done)
      as (Hnan & n & Hfixed & Hn & Hnear); [lia..|].
    destruct (decimal_one_place n) as (whole & digit & Hplace & _).
    exists (Text (Number.decimal 1 n)). rewrite Hnan, Hfixed.
    split; [done|]. split; [done|]. split.
    { intros Hnil. subst backlog inwork done. rewrite Hnil in Hpos.
      simpl in Hpos. lia. }
    split; [subst total; lia|]. split.
    + intros _. exists n, whole, digit.
      split; [done|]. split; [done|]. split; [done|].
      subst total.
      assert (2000 * Z.of_nat done - Z.of_nat (backlog + inwork + done)
              ≤ 2 * n * Z.of_nat (backlog + inwork + done)
              ≤ 2000 * Z.of_nat done + Z.of_nat (backlog + inwork + done))%Z
        as Hnear' by lia.
      split; [done|]. apply nearest_tenth_rounded; [lia|done].
    + intros Hb Hi Hd. rewrite Hb, Hi, Hd in Hfixed.
      change (Number.toFixed 1 (percentage 2 1 1)) with (Some (lit "25.0"))
        in Hfixed.
      by injection Hfixed as <-.
Qed.

Lemma statistics_are_the_counts_and_the_nearest_tenth_witness :
  statistics [sample_task 0x61 Status.inwork; sample_task 0x62 Status.done;
              sample_task 0x63 Status.inwork]
  = (0%nat, 2%nat, 1%nat, Some (Text (lit "33.3")))
  ∧ statistics [sample_task 0x61 Status.backlog; sample_task 0x62 Status.done;
                sample_task 0x63 Status.inwork;
                sample_task 0x64 Status.backlog]
    = (2%nat, 1%nat, 1%nat, Some (Text (lit "25.0"))).
Proof.
  split.
  - destruct (statistics_are_the_counts_and_the_nearest_tenth
                [sample_task 0x61 Status.inwork; sample_task 0x62 Status.done;
                 sample_task 0x63 Status.inwork])
      as (percent & Hstat & _ & _ & _ & Hnear & _); [reflexivity|].
    destruct Hnear as (n & _ & _ & -> & _ & _ & Htenths & _);
      [apply Nat.lt_0_succ|].
    rewrite Hstat.
    change (length (filter (λ t, status t = Status.backlog) _)) with 0%nat
      in Htenths.
    change (length (filter (λ t, status t = Status.inwork) _)) with 2%nat
      in Htenths.
    change (length (filter (λ t, status t = Status.done) _)) with 1%nat
      in Htenths.
    assert (n = 333%Z) as -> by lia. reflexivity.
  - destruct (statistics_are_the_counts_and_the_nearest_tenth
                [sample_task 0x61 Status.backlog; sample_task 0x62 Status.done;
                 sample_task 0x63 Status.inwork;
                 sample_task 0x64 Status.backlog])
      as (percent & Hstat & _ & _ & _ & _ & Hexample); [reflexivity|].
    rewrite Hstat, (Hexample eq_refl eq_refl eq_refl). reflexivity.
Defined.

(** C6, as stated, fails: of 80 tasks with 23 done, the percentage is
    28.75, which rounds to 28.8; the page shows ["28.7"], because the
    binary64 product is just below 28.75. *)
Lemma of_80_tasks_23_done_is_shown_as_28_7 :
  counters (backlog_then_done 57 23) = (57, 0, 23)%nat
  ∧ (statistics (backlog_then_done 57 23)).2 = Some (Text (lit "28.7"))
  ∧ Number.decimal 1 (rounded_percentage 23 80) = lit "28.8"
  ∧ (statistics (backlog_then_done 57 23)).2
    ≠ Some (Text (Number.decimal 1 (rounded_percentage 23 80))).
Proof.
  split; [by vm_compute|]. split; [by vm_compute|]. split; [by vm_compute|].
  intros H. vm_compute in H. discriminate H.
Qed.
End shown_percentage.
